(** * Financial planner: TOTP engine, attempt limiter and savings-goal optimizer

    A shallow embedding of the algorithmic core of the financial planner:

    - [goalController.js]  ([calculateRequiredDeposit]): the binary-search
      deposit optimizer over a compounding simulation;
    - [rateLimiter.js]     ([checkRateLimit]): the sliding-window login
      limiter;
    - [totp.js]            ([generateTOTP]): the time-based one-time code;
    - [authController.js]  ([registerUser], [loginUser], [verifyCode]):
      registration, login and code verification;
    - [investmentController.js] ([calculateInvestment]) and the form of
      [investment.component.ts] that feeds it;
    - [verifyToken.js], [session.service.ts], the route guards and
      [goal.service.ts]: the client's session and the header the goal
      routes read.

    JavaScript numbers are IEEE-754 binary64 values and are modelled by
    Rocq's primitive floats; integers that the code only counts with
    (timestamps in milliseconds, loop counters, digest bytes) are [Z]. *)

From Stdlib Require Import ZArith Floats List String Ascii Bool Lia.
From Stdlib Require Import Init.Byte.
From Stdlib Require Strings.Byte.
From stdpp Require Import base option list strings gmap.
Import ListNotations.

Set Warnings "-inexact-float,-clear-no-such-hyp,-notation-for-abbreviation".

(* ===================================================================== *)
(** ** JavaScript numbers *)
(* ===================================================================== *)

Module JSNumber.

Local Open Scope float_scope.

(** [isNaN x]. *)
Definition isNaN (x : float) : bool := PrimFloat.is_nan x.

(** [a > b] on numbers: false as soon as one side is NaN. *)
Definition gtb (a b : float) : bool := b <? a.

(** [a >= b]. *)
Definition geb (a b : float) : bool := b <=? a.

Global Arguments gtb : simpl never.
Global Arguments geb : simpl never.

Definition signedZ (s : bool) (m : positive) : Z :=
  if s then Z.neg m else Z.pos m.

(** The number of times the body of
    [for (let i = 1; i <= bound; i++) { ...; projection.push(...) }] runs
    when the loop completes.  Every pass pushes one row and an array holds
    fewer than 2^32 elements, so with 2^32 passes or more to make (or with
    the bound [Infinity]) the loop never completes: [None]. *)
Definition forTrips (bound : float) : option nat :=
  match Prim2SF bound with
  | S754_nan => Some O
  | S754_zero _ => Some O
  | S754_infinity true => Some O
  | S754_infinity false => None
  | S754_finite s m e =>
      let n := Z.shiftl (signedZ s m) e in
      if (n <? 2 ^ 32)%Z then Some (Z.to_nat n) else None
  end.

(** The result of [x.toFixed(2)], kept in structured form: [Fx s n] is the
    text of sign [s] and [n] hundredths (integer part, a dot, two digits);
    numbers of magnitude 1e21 and more are printed by [ToString] and read
    back as themselves. *)
Inductive fixed2 : Type :=
| FxNaN
| FxInf (neg : bool)
| FxExp (x : float)
| Fx (neg : bool) (hundredths : Z).

(** [Number.prototype.toFixed] with two fraction digits: the integer [n]
    for which [n / 100 - |x|] is closest to zero, the larger one on a tie. *)
Definition toFixed2 (x : float) : fixed2 :=
  match Prim2SF x with
  | S754_nan => FxNaN
  | S754_infinity s => FxInf s
  | S754_zero _ => Fx false 0
  | S754_finite s m e =>
      if 1e21 <=? abs x then FxExp x
      else if (0 <=? e)%Z then Fx s (100 * Z.pos m * 2 ^ e)
      else Fx s ((200 * Z.pos m + 2 ^ (- e)) / 2 ^ (1 - e))
  end.

(** [Number(text)] on the output of [toFixed]: the binary64 value nearest
    to the decimal (round to nearest, ties to even). *)
Definition numberOfFixed2 (d : fixed2) : float :=
  match d with
  | FxNaN => nan
  | FxInf s => if s then neg_infinity else infinity
  | FxExp x => x
  | Fx s (Z.pos p) =>
      SF2Prim (SFdiv prec emax (S754_finite s p 0) (S754_finite false 100 0))
  | Fx s _ => if s then PrimFloat.neg_zero else PrimFloat.zero
  end.

(** Decimal digits of a non-negative integer, most significant first. *)
Definition digitChar (d : Z) : ascii := ascii_of_nat (48 + Z.to_nat d).

Fixpoint decimalFuel (fuel : nat) (n : Z) : list ascii :=
  match fuel with
  | O => []
  | S fuel' =>
      if (n <? 10)%Z then [digitChar n]
      else decimalFuel fuel' (n / 10) ++ [digitChar (n mod 10)]
  end.

(** The [k] low decimal digits of [n], most significant first. *)
Fixpoint fixedDigits (k : nat) (n : Z) : list ascii :=
  match k with
  | O => []
  | S k' => fixedDigits k' (n / 10) ++ [digitChar (n mod 10)]
  end.

(** [n.toString()] for an integer [n >= 0]. *)
Definition toStringZ (n : Z) : string :=
  string_of_list_ascii (decimalFuel (S (Z.to_nat (Z.log2 n))) n).

(** The text [toFixed(2)] returns, for the finite values below 1e21. *)
Definition fixed2Text (d : fixed2) : option string :=
  match d with
  | FxNaN => Some "NaN"%string
  | FxInf s => Some (if s then "-Infinity" else "Infinity")%string
  | FxExp _ => None
  | Fx s n =>
      Some ((if s then "-" else "") +:+ toStringZ (n / 100) +:+ "."
            +:+ String (digitChar (n mod 100 / 10))
                  (String (digitChar (n mod 10)) EmptyString))%string
  end.

End JSNumber.

(* ===================================================================== *)
(** ** goalController.js: the savings-goal optimizer *)
(* ===================================================================== *)

Module GoalController.

Import JSNumber.
Local Open Scope float_scope.

(** The primitive values a field of the JSON request body can hold
    (arrays and objects are left out). *)
Inductive jsval : Type :=
| JUndefined
| JNull
| JBool (b : bool)
| JNum (x : float)
| JStr (s : string).

Record reqBody : Type := mkBody {
  goalAmount : jsval;
  months : jsval;
  annualRate : jsval
}.

(** One row of the projection table. *)
Record point : Type := mkPoint {
  month : Z;
  balance : float
}.

Inductive response : Type :=
| Ok200 (requiredDeposit : fixed2) (projection : list point) (iterations : nat)
| BadRequest400 (error : string)
| ServerError500.

(** The variables of the binary search; [mid] is declared without a value. *)
Record search : Type := mkSearch {
  low : float;
  high : float;
  mid : option float;
  iterations : nat;
  finalProjection : list point
}.

Definition isUndefined (v : jsval) : bool :=
  match v with JUndefined => true | _ => false end.

Section Optimizer.

(** [StringToNumber] is ECMAScript's conversion of a string to a number. *)
Variable StringToNumber : string -> float.

(** [Number(v)]. *)
Definition Number (v : jsval) : float :=
  match v with
  | JUndefined => nan
  | JNull => 0
  | JBool b => if b then 1 else 0
  | JNum x => x
  | JStr s => StringToNumber s
  end.

(** The body of the [for] loop of [simulateInvestment], run [trips] times
    from counter [i]. *)
Fixpoint simulateLoop (trips : nat) (i : Z) (deposit monthlyRate bal : float)
    (projection : list point) : float * list point :=
  match trips with
  | O => (bal, projection)
  | S trips' =>
      let bal := bal + deposit in
      let bal := bal + bal * monthlyRate in
      simulateLoop trips' (i + 1) deposit monthlyRate bal
        (projection ++ [mkPoint i (numberOfFixed2 (toFixed2 bal))])
  end.

(** [simulateInvestment(deposit)], with the captured [totalMonths] and
    [monthlyRate] as arguments; [None] when the [for] loop does not
    complete. *)
Definition simulateInvestment (totalMonths monthlyRate deposit : float)
  : option (float * list point) :=
  match forTrips totalMonths with
  | Some trips => Some (simulateLoop trips 1 deposit monthlyRate 0 [])
  | None => None
  end.

(** One pass through the body of the [while] loop. *)
Definition searchStep (goal totalMonths monthlyRate : float) (s : search)
  : option search :=
  let m := (low s + high s) / 2 in
  match simulateInvestment totalMonths monthlyRate m with
  | None => None
  | Some (bal, projection) =>
      if bal <? goal
      then Some (mkSearch m (high s) (Some m) (S (iterations s))
                   (finalProjection s))
      else Some (mkSearch (low s) m (Some m) (S (iterations s)) projection)
  end.

(** [while (high - low > 0.01) { ... }]; [fuel] bounds the number of passes
    and [None] means that the loop has not ended within it (or that a
    simulation inside it never completes). *)
Fixpoint searchLoop (fuel : nat) (goal totalMonths monthlyRate : float)
    (s : search) : option search :=
  if gtb (high s - low s) 0.01 then
    match fuel with
    | O => None
    | S fuel' =>
        match searchStep goal totalMonths monthlyRate s with
        | None => None
        | Some s' => searchLoop fuel' goal totalMonths monthlyRate s'
        end
    end
  else Some s.

Definition initialSearch (goal : float) : search :=
  mkSearch 0 goal None O [].

(** The handler.  A [TypeError] raised by [mid.toFixed] on an undefined
    [mid] is caught by the handler's [catch], which answers 500. *)
Definition calculateRequiredDeposit (fuel : nat) (body : reqBody)
  : option response :=
  if isUndefined (goalAmount body) || isUndefined (months body)
     || isUndefined (annualRate body)
  then Some (BadRequest400
               "Missing required fields: goalAmount, months, and annualRate.")
  else
    let goal := Number (goalAmount body) in
    let totalMonths := Number (months body) in
    let rate := Number (annualRate body) in
    if isNaN goal || isNaN totalMonths || isNaN rate
    then Some (BadRequest400 "All fields must be valid numbers.")
    else if (goal <=? 0) || (totalMonths <=? 0) || (rate <? 0)
    then Some (BadRequest400
           "Values must be positive, and interest rate must be non-negative.")
    else
      let monthlyRate := rate / 100 / 12 in
      match searchLoop fuel goal totalMonths monthlyRate (initialSearch goal)
      with
      | None => None
      | Some s =>
          match mid s with
          | None => Some ServerError500
          | Some m => Some (Ok200 (toFixed2 m) (finalProjection s)
                             (iterations s))
          end
      end.

End Optimizer.

(** A request body whose three fields are numbers. *)
Definition numBody (g m r : float) : reqBody :=
  mkBody (JNum g) (JNum m) (JNum r).

(** A stand-in for [StringToNumber] where no field is a string. *)
Definition noStr : string -> float := fun _ => nan.

(** The final balance [simulateInvestment(deposit).balance] for a request
    of [totalMonths] months at [rate] percent a year. *)
Definition simulatedBalance (totalMonths rate deposit : float) : option float :=
  option_map fst (simulateInvestment totalMonths (rate / 100 / 12) deposit).

(** The spec's preconditions, as the comparisons [>] and [>=] of the
    language decide them (a NaN satisfies none), integrality apart. *)
Definition violatesRange (StringToNumber : string -> float) (body : reqBody)
  : bool :=
  isUndefined (goalAmount body) || isUndefined (months body)
  || isUndefined (annualRate body)
  || negb (gtb (Number StringToNumber (goalAmount body)) 0)
  || negb (gtb (Number StringToNumber (months body)) 0)
  || negb (geb (Number StringToNumber (annualRate body)) 0).

(** A deposit whose simulated final balance is not below the goal (the
    [else] branch of the search), and one whose balance is below it. *)
Definition reaches (goal totalMonths monthlyRate deposit : float) : Prop :=
  exists bal projection,
    simulateInvestment totalMonths monthlyRate deposit = Some (bal, projection)
    /\ (bal <? goal) = false.

Definition undershoots (goal totalMonths monthlyRate deposit : float) : Prop :=
  exists bal projection,
    simulateInvestment totalMonths monthlyRate deposit = Some (bal, projection)
    /\ (bal <? goal) = true.

(** A projection row whose balance is some number printed with two
    decimals and read back, and a projection made of [trips] such rows
    numbered 1 to [trips]. *)
Definition rounded (p : point) : Prop :=
  exists bal, balance p = numberOfFixed2 (toFixed2 bal).

Definition completeProjection (trips : nat) (projection : list point) : Prop :=
  length projection = trips
  /\ map month projection = map Z.of_nat (seq 1 trips)
  /\ Forall rounded projection.

(** What the search knows about its bounds: [high] is the goal itself or a
    tested deposit that reached it, [low] is zero or a tested deposit that
    fell short, and [mid], once assigned, is the bound moved last. *)
Definition bracket (goal totalMonths monthlyRate : float) (s : search) : Prop :=
  (high s = goal \/ reaches goal totalMonths monthlyRate (high s))
  /\ (low s = 0 \/ undershoots goal totalMonths monthlyRate (low s))
  /\ (mid s = None \/ mid s = Some (low s) \/ mid s = Some (high s)).

(** A pair of bounds that one pass leaves in place while the width test
    still succeeds. *)
Definition stuck (goal totalMonths monthlyRate lo hi : float) : Prop :=
  gtb (hi - lo) 0.01 = true
  /\ forall s, low s = lo -> high s = hi ->
       exists s', searchStep goal totalMonths monthlyRate s = Some s'
                  /\ low s' = lo /\ high s' = hi.

(** The state after exactly [n] passes of the loop, when it runs that
    many. *)
Fixpoint passes (goal totalMonths monthlyRate : float) (n : nat) (s : search)
  : option search :=
  match n with
  | O => Some s
  | S n' =>
      if gtb (high s - low s) 0.01 then
        match searchStep goal totalMonths monthlyRate s with
        | Some s1 => passes goal totalMonths monthlyRate n' s1
        | None => None
        end
      else None
  end.

(** The recorded projection is still the initial empty one, or it is the
    complete projection of a simulation. *)
Definition emptyOrComplete (totalMonths : float) (s : search) : Prop :=
  finalProjection s = []
  \/ exists trips,
       forTrips totalMonths = Some trips
       /\ completeProjection trips (finalProjection s).

(** The number of passes a 200 answer reports. *)
Definition iterationsOf (r : option response) : option nat :=
  match r with
  | Some (Ok200 _ _ iterations) => Some iterations
  | _ => None
  end.

(** The deposit of a 200 answer. *)
Definition requiredDepositOf (r : option response) : option fixed2 :=
  match r with
  | Some (Ok200 requiredDeposit _ _) => Some requiredDeposit
  | _ => None
  end.

End GoalController.

(* ===================================================================== *)
(** ** rateLimiter.js: the sliding-window login limiter *)
(* ===================================================================== *)

Module RateLimiter.

Local Open Scope Z_scope.

Definition MAX_ATTEMPTS : nat := 5.
Definition WINDOW_MS : Z := 60 * 1000.

Global Arguments MAX_ATTEMPTS : simpl never.
Global Arguments WINDOW_MS : simpl never.

(** [while (attempts.length > 0 && now - attempts[0] > WINDOW_MS)
      attempts.shift();] *)
Fixpoint evict (now : Z) (attempts : list Z) : list Z :=
  match attempts with
  | [] => []
  | t :: rest => if now - t >? WINDOW_MS then evict now rest else attempts
  end.

(** [checkRateLimit(email)] at clock reading [now] ([Date.now()], in
    milliseconds).  [loginAttempts] is the module-level map; the array it
    holds for [email] is shifted and pushed in place, so every change to
    [attempts] is a change to the map. *)
Definition checkRateLimit (email : string) (now : Z)
    (loginAttempts : gmap string (list Z)) : bool * gmap string (list Z) :=
  let loginAttempts :=
    match loginAttempts !! email with
    | Some _ => loginAttempts
    | None => <[email := []]> loginAttempts
    end in
  let attempts := evict now (default [] (loginAttempts !! email)) in
  if decide (MAX_ATTEMPTS <= length attempts)%nat
  then (false, <[email := attempts]> loginAttempts)
  else (true, <[email := attempts ++ [now]]> loginAttempts).

(** A run of calls for one identity at the given clock readings: the
    answers in order and the map left behind. *)
Fixpoint callsAt (email : string) (times : list Z)
    (loginAttempts : gmap string (list Z))
  : list bool * gmap string (list Z) :=
  match times with
  | [] => ([], loginAttempts)
  | now :: later =>
      let '(ok, loginAttempts') := checkRateLimit email now loginAttempts in
      let '(oks, final) := callsAt email later loginAttempts' in
      (ok :: oks, final)
  end.

(** The maps the process can hold: empty at start, then changed only by
    [checkRateLimit]. *)
Inductive reachable : gmap string (list Z) -> Prop :=
| reachable_start : reachable ∅
| reachable_call email now loginAttempts :
    reachable loginAttempts ->
    reachable (snd (checkRateLimit email now loginAttempts)).

(** A timestamp is older than the window at [now]. *)
Definition expired (now t : Z) : bool := now - t >? WINDOW_MS.

(** Timestamps in the order of a clock that never runs backwards. *)
Fixpoint ascending (ts : list Z) : Prop :=
  match ts with
  | [] => True
  | t :: rest => Forall (fun u => t <= u) rest /\ ascending rest
  end.

(** The maps reached when the clock never runs backwards; the index is
    the latest clock reading. *)
Inductive chronological : Z -> gmap string (list Z) -> Prop :=
| chronological_start t : chronological t ∅
| chronological_call t email now loginAttempts :
    chronological t loginAttempts ->
    t <= now ->
    chronological now (snd (checkRateLimit email now loginAttempts)).

(** A run of calls, each an identity and the clock reading of the call:
    the readings of the calls for [email] that were allowed, in order. *)
Fixpoint admitted (email : string) (calls : list (string * Z))
    (loginAttempts : gmap string (list Z)) : list Z :=
  match calls with
  | [] => []
  | (who, now) :: later =>
      let r := checkRateLimit who now loginAttempts in
      (if fst r && bool_decide (who = email) then [now] else [])
      ++ admitted email later (snd r)
  end.

(** The map a run of calls leaves behind. *)
Fixpoint stateAfter (calls : list (string * Z))
    (loginAttempts : gmap string (list Z)) : gmap string (list Z) :=
  match calls with
  | [] => loginAttempts
  | (who, now) :: later =>
      stateAfter later (snd (checkRateLimit who now loginAttempts))
  end.

(** The calls of a run that are made for [email]. *)
Definition callsFor (email : string) (calls : list (string * Z))
  : list (string * Z) :=
  List.filter (fun c => bool_decide (fst c = email)) calls.

(** The readings that fall in the 60-second window that opens at [from]. *)
Definition inWindow (from t : Z) : bool :=
  (from <=? t) && (t <=? from + WINDOW_MS).

End RateLimiter.

(* ===================================================================== *)
(** ** The secret codec *)
(* ===================================================================== *)

Module Base32.

Local Open Scope Z_scope.

(** Modelled from the spec: [base32.encode] belongs to the [thirty-two]
    package, which is not among the sources.  It is the spec's "standard
    5-bit alphabet" encoding: the bytes are read as one bit string, most
    significant bit first, cut into groups of five bits (the last group
    filled with zero bits), and each group is written as one character of
    the alphabet; the text is padded with [=] to a multiple of eight
    characters. *)
Definition alphabet : list ascii :=
  list_ascii_of_string "ABCDEFGHIJKLMNOPQRSTUVWXYZ234567".

Definition quintet : Type := bool * bool * bool * bool * bool.

Definition quintetValue (q : quintet) : nat :=
  let '(b4, b3, b2, b1, b0) := q in
  (16 * Nat.b2n b4 + 8 * Nat.b2n b3 + 4 * Nat.b2n b2 + 2 * Nat.b2n b1
   + Nat.b2n b0)%nat.

Definition quintetBits (q : quintet) : list bool :=
  let '(b4, b3, b2, b1, b0) := q in [b4; b3; b2; b1; b0].

Definition charOfQuintet (q : quintet) : ascii :=
  nth (quintetValue q) alphabet "A"%char.

(** The bits of a byte, most significant first. *)
Definition byteBits (b : byte) : list bool :=
  let '(b0, (b1, (b2, (b3, (b4, (b5, (b6, b7))))))) := Byte.to_bits b in
  [b7; b6; b5; b4; b3; b2; b1; b0].

Definition bitsOfBytes (bs : list byte) : list bool := flat_map byteBits bs.

(** Groups of five bits; a last, shorter group is filled with zero bits. *)
Fixpoint quintets (bits : list bool) : list quintet :=
  match bits with
  | [] => []
  | b4 :: b3 :: b2 :: b1 :: b0 :: rest => (b4, b3, b2, b1, b0) :: quintets rest
  | [b4; b3; b2; b1] => [(b4, b3, b2, b1, false)]
  | [b4; b3; b2] => [(b4, b3, b2, false, false)]
  | [b4; b3] => [(b4, b3, false, false, false)]
  | [b4] => [(b4, false, false, false, false)]
  end.


Definition isPadding (c : ascii) : bool := Ascii.eqb c "="%char.

Definition encodeChars (bs : list byte) : list ascii :=
  map charOfQuintet (quintets (bitsOfBytes bs)).

Definition padding (n : nat) : list ascii :=
  repeat "="%char ((8 - n mod 8) mod 8)%nat.

(** Modelled from the spec: [base32.encode] of the [thirty-two] package
    (not among the sources), the text of the five-bit groups followed by
    the padding. *)
Definition encode (bs : list byte) : string :=
  string_of_list_ascii
    (encodeChars bs ++ padding (length (encodeChars bs))).

(** [base32.decode] belongs to the same package.  The definitions below
    follow the package's loop, which does not check its input against the
    alphabet: it looks every byte up in a table of eighty entries (the
    digits, the upper and lower case letters and what lies between them),
    moves the bits of the entry into the output, stops at the first [=]
    and throws only on a byte that lies beyond the table.

    The table, indexed by the byte less 48 (the code of the character 0):
    255 marks a byte that is no character of the alphabet. *)
Definition byteTable : list Z :=
  [255; 255; 26; 27; 28; 29; 30; 31;
   255; 255; 255; 255; 255; 255; 255; 255;
   255; 0; 1; 2; 3; 4; 5; 6;
   7; 8; 9; 10; 11; 12; 13; 14;
   15; 16; 17; 18; 19; 20; 21; 22;
   23; 24; 25; 255; 255; 255; 255; 255;
   255; 0; 1; 2; 3; 4; 5; 6;
   7; 8; 9; 10; 11; 12; 13; 14;
   15; 16; 17; 18; 19; 20; 21; 22;
   23; 24; 25; 255; 255; 255; 255; 255].

(** [byteTable[i]] as the operand of a bitwise operator: an index below
    zero reads [undefined], which the operator takes as 0. *)
Definition tableAt (i : Z) : Z :=
  if i <? 0 then 0 else nth (Z.to_nat i) byteTable 0.

(** The variables of the loop of [decode]: [decoded] holds the bytes
    written so far ([plainPos] is their number).  [plainChar] is declared
    without a value and first used under [|=], which takes it as 0. *)
Record decoder : Type := mkDecoder {
  shiftIndex : Z;
  plainChar : Z;
  decoded : list byte
}.

(** The low eight bits of a number, as stored into a buffer. *)
Definition octetOf (z : Z) : byte :=
  match Byte.of_N (Z.to_N (z mod 256)) with
  | Some b => b
  | None => x00
  end.

Definition charCode (c : ascii) : Z := Z.of_nat (nat_of_ascii c).

(** The body of the loop for one byte that is not [=]; [None] is the
    error it throws. *)
Definition decodeByte (st : decoder) (code : Z) : option decoder :=
  let encodedByte := code - 48 in
  if encodedByte <? Z.of_nat (length byteTable) then
    let plainDigit := tableAt encodedByte in
    if shiftIndex st <=? 3 then
      let shiftIndex' := (shiftIndex st + 5) mod 8 in
      if shiftIndex' =? 0 then
        let plainChar' := Z.lor (plainChar st) plainDigit in
        Some (mkDecoder shiftIndex' 0 (decoded st ++ [octetOf plainChar']))
      else
        Some (mkDecoder shiftIndex'
                (Z.lor (plainChar st)
                   (Z.land 255 (Z.shiftl plainDigit (8 - shiftIndex'))))
                (decoded st))
    else
      let shiftIndex' := (shiftIndex st + 5) mod 8 in
      let plainChar' :=
        Z.lor (plainChar st) (Z.land 255 (Z.shiftr plainDigit shiftIndex')) in
      Some (mkDecoder shiftIndex'
              (Z.land 255 (Z.shiftl plainDigit (8 - shiftIndex')))
              (decoded st ++ [octetOf plainChar']))
  else None.

(** The loop: it ends at the end of the text or at the first [=]. *)
Fixpoint decodeLoop (st : decoder) (encoded : list ascii) : option decoder :=
  match encoded with
  | [] => Some st
  | c :: rest =>
      if isPadding c then Some st
      else
        match decodeByte st (charCode c) with
        | Some st' => decodeLoop st' rest
        | None => None
        end
  end.

(** [base32.decode] of the [thirty-two] package on a string; [None] where
    it throws. *)
Definition decode (text : string) : option (list byte) :=
  option_map decoded
    (decodeLoop (mkDecoder 0 0 []) (list_ascii_of_string text)).


(** *** The loop read as a stream of bits *)

(** A bit string as a number, most significant bit first. *)
Definition bitsZ (bits : list bool) : Z :=
  fold_left (fun acc (b : bool) => 2 * acc + (if b then 1 else 0)) bits 0.

(** The decoder that holds the bits [bits] of a byte not yet complete:
    [shiftIndex] counts them and [plainChar] holds them at the top of the
    byte. *)
Definition pending (bits : list bool) (out : list byte) : decoder :=
  mkDecoder (Z.of_nat (length bits))
    (bitsZ (bits ++ repeat false (8 - length bits))) out.







End Base32.

(* ===================================================================== *)
(** ** totp.js: the one-time code *)
(* ===================================================================== *)

Module Totp.

Import JSNumber.
Local Open Scope Z_scope.

(** A byte as a number, and the low eight bits of a number as a byte. *)
Definition byteZ (b : byte) : Z := Z.of_N (Byte.to_N b).

Definition byteOfZ (z : Z) : byte :=
  match Byte.of_N (Z.to_N (z mod 256)) with
  | Some b => b
  | None => x00
  end.

(** [ToInt32], and the 32-bit operators [<<] and [|]. *)
Definition toInt32 (z : Z) : Z :=
  let r := z mod 2 ^ 32 in
  if r >=? 2 ^ 31 then r - 2 ^ 32 else r.

Definition shl32 (a k : Z) : Z := toInt32 (toInt32 a * 2 ^ (k mod 32)).
Definition or32 (a b : Z) : Z := toInt32 (Z.lor (toInt32 a) (toInt32 b)).
Definition and32 (a b : Z) : Z := toInt32 (Z.land (toInt32 a) (toInt32 b)).

(** [buf.writeUInt32BE(value, offset)]: a [RangeError] ([None]) unless
    [value] is an unsigned 32-bit integer. *)
Definition writeUInt32BE (buf : list byte) (value : Z) (offset : nat)
  : option (list byte) :=
  if (0 <=? value) && (value <=? 4294967295) then
    Some (<[offset + 3 := byteOfZ value]>
            (<[offset + 2 := byteOfZ (value / 2 ^ 8)]>
               (<[offset + 1 := byteOfZ (value / 2 ^ 16)]>
                  (<[offset := byteOfZ (value / 2 ^ 24)]> buf))))%nat
  else None.

(** [digest[i]] as the operand of a bitwise operator: an index past the
    end reads [undefined], which the operator takes as 0. *)
Definition digestAt (digest : list byte) (i : Z) : Z :=
  match digest !! Z.to_nat i with
  | Some b => byteZ b
  | None => 0
  end.

(** [s.padStart(width, fill)] for a one-character [fill]. *)
Definition padStart (width : nat) (fill : ascii) (s : string) : string :=
  string_of_list_ascii (repeat fill (width - String.length s)) +:+ s.

Section Engine.

(** [hmacSha1 key message] is the digest of
    [crypto.createHmac('sha1', key).update(message).digest()], and
    [base32Decode] is [base32.decode], [None] where it throws. *)
Variable hmacSha1 : list byte -> list byte -> list byte.
Variable base32Decode : string -> option (list byte).

(** The body of [generateTOTP] from the decoded [secret] on, at the clock
    reading [nowMs] ([Date.now()]). *)
Definition totpOfSecret (secret : list byte) (nowMs : Z) : option string :=
  let timeStep := 30 in
  let currentTime := nowMs / 1000 in
  let counter := currentTime / timeStep in
  match writeUInt32BE (repeat x00 8) 0 0 with
  | None => None
  | Some buffer =>
      match writeUInt32BE buffer counter 4 with
      | None => None
      | Some buffer =>
          let digest := hmacSha1 secret buffer in
          let offset := and32 (digestAt digest 19) 15 in
          let binary :=
            or32 (or32 (or32
              (shl32 (and32 (digestAt digest offset) 127) 24)
              (shl32 (and32 (digestAt digest (offset + 1)) 255) 16))
              (shl32 (and32 (digestAt digest (offset + 2)) 255) 8))
              (and32 (digestAt digest (offset + 3)) 255) in
          let otp := Z.rem binary 1000000 in
          Some (padStart 6 "0" (toStringZ otp))
      end
  end.

Definition generateTOTP (base32Secret : string) (nowMs : Z) : option string :=
  match base32Decode base32Secret with
  | None => None
  | Some secret => totpOfSecret secret nowMs
  end.

(** *** The computation as the spec words it *)

(** An integer as eight bytes, most significant first. *)
Definition bigEndian8 (n : Z) : list byte :=
  map (fun k => byteOfZ (n / 256 ^ k)) [7; 6; 5; 4; 3; 2; 1; 0].

(** Dynamic truncation: the low four bits of the last digest byte are an
    offset; the four bytes from there, read big-endian, with the top bit
    masked. *)
Definition dynamicTruncate (digest : list byte) : Z :=
  let offset := digestAt digest (Z.of_nat (length digest) - 1) mod 16 in
  (digestAt digest offset * 2 ^ 24 + digestAt digest (offset + 1) * 2 ^ 16
   + digestAt digest (offset + 2) * 2 ^ 8 + digestAt digest (offset + 3))
  mod 2 ^ 31.

(** A value below one million as six decimal digits. *)
Definition sixDigits (n : Z) : string :=
  string_of_list_ascii
    (map (fun k => digitChar (n / 10 ^ k mod 10)) [5; 4; 3; 2; 1; 0]).

Definition specGenerate (secret : list byte) (epochSeconds : Z) : string :=
  let counter := epochSeconds / 30 in
  sixDigits (dynamicTruncate (hmacSha1 secret (bigEndian8 counter))
             mod 1000000).

End Engine.

Definition isDigit (c : ascii) : bool :=
  (48 <=? nat_of_ascii c)%nat && (nat_of_ascii c <=? 57)%nat.

(** A 20-byte stand-in for the digest function, for concrete instances
    (it is not SHA-1): the first twenty bytes of key, message and zeros. *)
Definition standInDigest (key message : list byte) : list byte :=
  take 20 (key ++ message ++ repeat x00 20).

End Totp.

(* ===================================================================== *)
(** ** authController.js: enrolment and verification *)
(* ===================================================================== *)

Module AuthController.

(** [text.replace(/=/g, "")]. *)
Definition stripPadding (text : string) : string :=
  string_of_list_ascii
    (List.filter (fun c => negb (Ascii.eqb c "="%char))
       (list_ascii_of_string text)).

Inductive verifyResponse : Type :=
| Verify200 (message : string)
| Verify400 (error : string)
| Verify500 (error : string).

Section Handlers.

(** The imported [base32.encode], [base32.decode] and HMAC-SHA1. *)
Variable base32Encode : list byte -> string.
Variable base32Decode : string -> option (list byte).
Variable hmacSha1 : list byte -> list byte -> list byte.

(** The stored secret of [registerUser]:
    [base32.encode(rawSecret).toString().replace(/=/g, "")]. *)
Definition totpSecretOf (rawSecret : list byte) : string :=
  stripPadding (base32Encode rawSecret).

(** [verifyCode] at the clock reading [nowMs]: [users] maps an email to
    the stored [totpSecret] ([User.findOne]); [code] is the submitted
    text, so [String(code)] is [code]; an exception of [generateTOTP] is
    caught and answered 500. *)
Definition verifyCode (users : gmap string string) (nowMs : Z)
    (email code : string) : verifyResponse :=
  match users !! email with
  | None => Verify400 "Invalid user"
  | Some totpSecret =>
      match Totp.generateTOTP hmacSha1 base32Decode totpSecret nowMs with
      | None => Verify500 "Server error"
      | Some expected =>
          if negb (String.eqb code expected)
          then Verify400 "Invalid verification code"
          else Verify200 "Login successful"
      end
  end.

End Handlers.

End AuthController.

(* ===================================================================== *)
(** ** investmentController.js: the compound-interest projection *)
(* ===================================================================== *)

Module InvestmentController.

Import JSNumber.
Local Open Scope float_scope.

Notation jsval := GoalController.jsval.
Notation JUndefined := GoalController.JUndefined.
Notation JNull := GoalController.JNull.
Notation JBool := GoalController.JBool.
Notation JNum := GoalController.JNum.
Notation JStr := GoalController.JStr.
Notation isUndefined := GoalController.isUndefined.
Notation Number := GoalController.Number.

Record reqBody : Type := mkBody {
  initialAmount : jsval;
  monthlyDeposit : jsval;
  annualRate : jsval;
  years : jsval
}.

(** The strings are the two results of [toFixed(2)], in structured form. *)
Inductive response : Type :=
| Ok200 (finalBalance totalInterest : fixed2)
| BadRequest400 (error : string).

(** [a ?? b]. *)
Definition nullish (a b : jsval) : jsval :=
  match a with
  | JUndefined | JNull => b
  | _ => a
  end.

(** The least integer that is not below the positive number [m * 2^e]. *)
Definition ceilZ (m : positive) (e : Z) : Z :=
  if (0 <=? e)%Z then Z.pos m * 2 ^ e
  else (Z.pos m + 2 ^ (- e) - 1) / 2 ^ (- e).

(** The number of times the body of
    [for (let i = 0; i < bound; i++) { ... }] runs.  The counter takes the
    values 0, 1, 2, ... exactly up to 2^53, where adding 1 leaves it as
    it is; so with a bound above 2^53 (or [Infinity]) the loop never
    ends: [None]. *)
Definition countingTrips (bound : float) : option nat :=
  match Prim2SF bound with
  | S754_nan => Some O
  | S754_zero _ => Some O
  | S754_infinity true => Some O
  | S754_infinity false => None
  | S754_finite true _ _ => Some O
  | S754_finite false m e =>
      if (2 ^ 53 <? ceilZ m e)%Z then None else Some (Z.to_nat (ceilZ m e))
  end.

(** The body of the [for] loop, run [trips] times. *)
Fixpoint compound (trips : nat) (monthly monthlyRate total : float) : float :=
  match trips with
  | O => total
  | S trips' =>
      let total := total + monthly in
      let total := total + total * monthlyRate in
      compound trips' monthly monthlyRate total
  end.

Section Handler.

Variable StringToNumber : string -> float.

(** The handler; [None] when the [for] loop never ends.  Nothing in the
    [try] block throws, so the [catch] is never entered. *)
Definition calculateInvestment (body : reqBody) : option response :=
  if isUndefined (initialAmount body) || isUndefined (annualRate body)
     || isUndefined (years body)
  then Some (BadRequest400
    "Missing required fields: initialAmount, annualRate, and years are mandatory.")
  else
    let initial := Number StringToNumber (initialAmount body) in
    let monthly :=
      Number StringToNumber (nullish (monthlyDeposit body) (JNum 0)) in
    let rate := Number StringToNumber (annualRate body) in
    let durationYears := Number StringToNumber (years body) in
    if isNaN initial || isNaN monthly || isNaN rate || isNaN durationYears
    then Some (BadRequest400 "All fields must be valid numeric values.")
    else if (initial <? 0) || (monthly <? 0) || (rate <? 0)
            || (durationYears <=? 0)
    then Some (BadRequest400
      "Values must be non-negative, and years must be greater than zero.")
    else if gtb rate 100
    then Some (BadRequest400
      "Interest rate cannot exceed 100%. Please enter a realistic APR.")
    else if gtb durationYears 100
    then Some (BadRequest400
      "Years cannot exceed 100. Please enter a reasonable investment duration.")
    else
      let PERCENT_CONVERSION := 100 in
      let MONTHS_IN_YEAR := 12 in
      let monthlyRate := rate / PERCENT_CONVERSION / MONTHS_IN_YEAR in
      let totalMonths := durationYears * MONTHS_IN_YEAR in
      match countingTrips totalMonths with
      | None => None
      | Some trips =>
          let total := compound trips monthly monthlyRate initial in
          let totalContributions := initial + monthly * totalMonths in
          let totalInterest := total - totalContributions in
          Some (Ok200 (toFixed2 total) (toFixed2 totalInterest))
      end.

(** The request is within the ranges the handler asks for: the three
    mandatory fields are there, the amounts are at least zero, the rate is
    between 0 and 100 and the years are above 0 and at most 100 (a NaN
    satisfies none of these). *)
Definition withinRanges (body : reqBody) : bool :=
  negb (isUndefined (initialAmount body))
  && negb (isUndefined (annualRate body))
  && negb (isUndefined (years body))
  && geb (Number StringToNumber (initialAmount body)) 0
  && geb (Number StringToNumber (nullish (monthlyDeposit body) (JNum 0))) 0
  && geb (Number StringToNumber (annualRate body)) 0
  && geb 100 (Number StringToNumber (annualRate body))
  && gtb (Number StringToNumber (years body)) 0
  && geb 100 (Number StringToNumber (years body)).

End Handler.

(** A number that is neither NaN nor infinite. *)
Definition isFinite (x : float) : bool :=
  match Prim2SF x with
  | S754_zero _ | S754_finite _ _ _ => true
  | _ => false
  end.


(** A number that is zero or positive and finite. *)
Definition plain (x : float) : Prop :=
  (exists s, Prim2SF x = S754_zero s)
  \/ (exists m e, Prim2SF x = S754_finite false m e).

(** Positive infinity or NaN. *)
Definition unbounded (x : float) : Prop :=
  Prim2SF x = S754_infinity false \/ Prim2SF x = S754_nan.

End InvestmentController.

(* ===================================================================== *)
(** ** investment.component.ts: the form and its payload *)
(* ===================================================================== *)

Module InvestmentComponent.
Import JSNumber InvestmentController.
Local Open Scope float_scope.

Definition isNull (v : jsval) : bool :=
  match v with JNull => true | _ => false end.

Section Component.
Variable StringToNumber : string -> float.

(** [validateInputs] on the four fields of the form: the error message,
    or [None] for [null]. *)
Definition validateInputs (fields : reqBody) : option string :=
  if isNull (initialAmount fields) || isUndefined (initialAmount fields)
     || isNull (monthlyDeposit fields) || isUndefined (monthlyDeposit fields)
     || isNull (annualRate fields) || isUndefined (annualRate fields)
     || isNull (years fields) || isUndefined (years fields)
  then Some "All fields are required."%string
  else if isNaN (Number StringToNumber (initialAmount fields))
          || isNaN (Number StringToNumber (monthlyDeposit fields))
          || isNaN (Number StringToNumber (annualRate fields))
          || isNaN (Number StringToNumber (years fields))
  then Some "All fields must be valid numbers."%string
  else if (Number StringToNumber (initialAmount fields) <? 0)
          || (Number StringToNumber (monthlyDeposit fields) <? 0)
          || (Number StringToNumber (annualRate fields) <? 0)
          || (Number StringToNumber (years fields) <=? 0)
  then Some
    "Values cannot be negative, and years must be greater than zero."%string
  else if gtb (Number StringToNumber (annualRate fields)) 100
  then Some
    "Interest rate cannot exceed 100%. Please enter a realistic APR."%string
  else if gtb (Number StringToNumber (years fields)) 100
  then Some
    "Years cannot exceed 100. Please enter a reasonable investment duration."%string
  else None.

(** The payload of [onCalculate]. *)
Definition payload (fields : reqBody) : reqBody :=
  mkBody (JNum (Number StringToNumber (initialAmount fields)))
         (JNum (Number StringToNumber (monthlyDeposit fields)))
         (JNum (Number StringToNumber (annualRate fields)))
         (JNum (Number StringToNumber (years fields))).

End Component.

(** A value of the payload after [JSON.stringify] and [JSON.parse]: NaN
    and the infinities are written as [null], negative zero as 0. *)
Definition jsonNumber (v : jsval) : jsval :=
  match v with
  | JNum x =>
      match Prim2SF x with
      | S754_zero _ => JNum 0
      | S754_finite _ _ _ => JNum x
      | _ => JNull
      end
  | other => other
  end.

(** The request body as it reaches the handler. *)
Definition viaJson (body : reqBody) : reqBody :=
  mkBody (jsonNumber (initialAmount body)) (jsonNumber (monthlyDeposit body))
         (jsonNumber (annualRate body)) (jsonNumber (years body)).

End InvestmentComponent.

(* ===================================================================== *)
(** ** JavaScript strings *)
(* ===================================================================== *)

Module JSString.

(** The first piece of [s.split(sep)] and the pieces after it, for a
    separator of one character. *)
Fixpoint splitPieces (sep : ascii) (s : string) : string * list string :=
  match s with
  | EmptyString => (EmptyString, [])
  | String c rest =>
      let '(piece, pieces) := splitPieces sep rest in
      if Ascii.eqb c sep then (EmptyString, piece :: pieces)
      else (String c piece, pieces)
  end.

(** [s.split(sep)]: the pieces between the occurrences of [sep], one more
    than there are occurrences. *)
Definition split (sep : ascii) (s : string) : list string :=
  let '(piece, pieces) := splitPieces sep s in piece :: pieces.

(** A string counts as true in a condition unless it is empty. *)
Definition truthy (s : string) : bool :=
  match s with
  | EmptyString => false
  | String _ _ => true
  end.

(** The character [c] does not occur in [s]. *)
Fixpoint lacks (c : ascii) (s : string) : bool :=
  match s with
  | EmptyString => true
  | String a rest => negb (Ascii.eqb a c) && lacks c rest
  end.

(** A value interpolated into a template literal: [null] prints as the
    four letters of its name. *)
Definition interpolate (v : option string) : string := default "null" v.

(** The pieces of a split put together again, each behind a separator. *)
Fixpoint behind (sep : ascii) (pieces : list string) : string :=
  match pieces with
  | [] => EmptyString
  | piece :: rest => String sep (piece +:+ behind sep rest)
  end.

End JSString.

(* ===================================================================== *)
(** ** authController.js: registration and login *)
(* ===================================================================== *)

Module AuthHandlers.

Import JSNumber.

(** A document of the users collection ([User.js]), without its e-mail:
    the collection is a map from the stored e-mail to the document, the
    e-mail being [unique]. *)
Record user : Type := mkUser {
  passwordHash : string;
  totpSecret : string;
  lastIssuedCode : option string
}.

Inductive registerResponse : Type :=
| Register201 (message : string)
| Register400 (error : string)
| Register500 (error : string).

Inductive loginResponse : Type :=
| Login200 (message email code : string)
| Login400 (error : string)
| Login429 (error : string)
| Login500 (error : string).


(** [required: true] on a string field of the schema: [save] rejects a
    document in which the field is empty. *)
Definition validates (email : string) (doc : user) : bool :=
  JSString.truthy email && JSString.truthy (passwordHash doc)
  && JSString.truthy (totpSecret doc).

(** The schema stores an e-mail in lower case and trimmed ([lowercase],
    [trim]).  An e-mail made of lower-case letters, digits and the signs
    [@ . _ - +] only is stored as it is, so that the document is kept, and
    found, under the very e-mail of the request; the handlers below are
    the handlers for such e-mails. *)
Definition plainAddressChar (c : ascii) : bool :=
  let n := nat_of_ascii c in
  ((97 <=? n) && (n <=? 122))%nat || ((48 <=? n) && (n <=? 57))%nat
  || existsb (Ascii.eqb c) (list_ascii_of_string "@._-+").

Definition keptByTheSchema (email : string) : bool :=
  forallb plainAddressChar (list_ascii_of_string email).

Section Handlers.

(** [bcryptHash salt password] is [bcrypt.hash(password, 12)] for the salt
    it draws, [bcryptCompare password hash] is [bcrypt.compare]; the codec
    and the digest are as in [verifyCode]. *)
Variable bcryptHash : string -> string -> string.
Variable bcryptCompare : string -> string -> bool.
Variable base32Encode : list byte -> string.
Variable base32Decode : string -> option (list byte).
Variable hmacSha1 : list byte -> list byte -> list byte.

(** [registerUser]; [salt] and [rawSecret] are the random values drawn by
    [bcrypt.hash] and by [crypto.randomBytes(20)].  A document that [save]
    rejects makes it throw, and the [catch] answers 500. *)
Definition registerUser (users : gmap string user) (salt : string)
    (rawSecret : list byte) (email password : string)
  : registerResponse * gmap string user :=
  match users !! email with
  | Some _ => (Register400 "Email already exists", users)
  | None =>
      let passwordHash := bcryptHash salt password in
      let totpSecret := AuthController.totpSecretOf base32Encode rawSecret in
      let doc := mkUser passwordHash totpSecret None in
      if validates email doc
      then (Register201 "User registered successfully",
            <[email := doc]> users)
      else (Register500 "Server error", users)
  end.

(** [loginUser]; [now] is the clock reading inside [checkRateLimit] and
    [later] the one inside [generateTOTP], which runs after the password
    has been compared.  An exception of [generateTOTP] is caught and
    answered 500. *)
Definition loginUser (loginAttempts : gmap string (list Z))
    (users : gmap string user) (now later : Z) (email password : string)
  : loginResponse * gmap string (list Z) * gmap string user :=
  let '(allowed, loginAttempts) :=
    RateLimiter.checkRateLimit email now loginAttempts in
  if negb allowed
  then (Login429 "Too many login attempts", loginAttempts, users)
  else
    match users !! email with
    | None => (Login400 "Invalid credentials", loginAttempts, users)
    | Some doc =>
        if negb (bcryptCompare password (passwordHash doc))
        then (Login400 "Invalid credentials", loginAttempts, users)
        else
          match Totp.generateTOTP hmacSha1 base32Decode (totpSecret doc) later
          with
          | None => (Login500 "Server error", loginAttempts, users)
          | Some code =>
              (Login200 "Verification code sent" email code, loginAttempts,
               <[email := mkUser (passwordHash doc) (totpSecret doc)
                            (Some code)]> users)
          end
    end.


End Handlers.

(** The secrets [verifyCode] reads from the collection. *)
Definition secretsOf (users : gmap string user) : gmap string string :=
  totpSecret <$> users.

(** A stand-in for bcrypt, for concrete instances (it hashes nothing):
    the hash is the password behind a dollar sign. *)
Definition standInHash (salt password : string) : string :=
  "$" +:+ password.

Definition standInCompare (password hash : string) : bool :=
  String.eqb hash ("$" +:+ password).

End AuthHandlers.


(* ===================================================================== *)
(** ** verifyToken.js: the legacy authorization parser *)
(* ===================================================================== *)

Module VerifyToken.

Import JSString.

(** What the middleware does with a request: it hands it on with
    [req.userId] set, or answers 401. *)
Inductive outcome : Type :=
| Next (userId : string)
| Unauthorized401 (error : string).

(** [verifyToken]; [authorization] is [req.headers.authorization], a
    string when the header is present.  Nothing in the body throws on a
    string, so the [catch] is never entered. *)
Definition verifyToken (authorization : option string) : outcome :=
  match authorization with
  | None => Unauthorized401 "Missing Authorization header"
  | Some authHeader =>
      if negb (truthy authHeader)
      then Unauthorized401 "Missing Authorization header"
      else
        match split " " authHeader with
        | [scheme; credentials] =>
            if negb (String.eqb scheme "Bearer")
            then Unauthorized401 "Invalid Authorization format"
            else
              match split "|" credentials with
              | _ :: email :: _ =>
                  if negb (truthy email)
                  then Unauthorized401 "Invalid Authorization header"
                  else Next email
              | _ => Unauthorized401 "Invalid Authorization header"
              end
        | _ => Unauthorized401 "Invalid Authorization format"
        end
  end.

End VerifyToken.

(* ===================================================================== *)
(** ** The client's session: session.service.ts, the route guards,
       goal.service.ts and the login, verify and root components *)
(* ===================================================================== *)

Module Session.

Import JSString.

(** The browser's [localStorage]: [getItem] answers [null] ([None]) for a
    key that is not set. *)
Notation storage := (gmap string string).

Definition getItem (key : string) (localStorage : storage) : option string :=
  localStorage !! key.

Definition setItem (key value : string) (localStorage : storage) : storage :=
  <[key := value]> localStorage.

Definition removeItem (key : string) (localStorage : storage) : storage :=
  delete key localStorage.

(** [SessionService]. *)
Definition TOKEN_KEY : string := "authToken".
Definition EMAIL_KEY : string := "authEmail".

Definition setSession (token email : string) (localStorage : storage)
  : storage :=
  setItem EMAIL_KEY email (setItem TOKEN_KEY token localStorage).

Definition clearSession (localStorage : storage) : storage :=
  removeItem EMAIL_KEY (removeItem TOKEN_KEY localStorage).

(** [!!localStorage.getItem(TOKEN_KEY)]. *)
Definition isLoggedIn (localStorage : storage) : bool :=
  match getItem TOKEN_KEY localStorage with
  | Some token => truthy token
  | None => false
  end.

Definition getEmail (localStorage : storage) : option string :=
  getItem EMAIL_KEY localStorage.

(** The guards: whether the route is activated, and where the router is
    sent when it is not. *)
Definition authGuard (localStorage : storage) : bool * option string :=
  if isLoggedIn localStorage then (true, None) else (false, Some "/login").

Definition noAuthGuard (localStorage : storage) : bool * option string :=
  if isLoggedIn localStorage then (false, Some "/investment")
  else (true, None).

(** [GoalService.getAuthHeaders]: the value of the [Authorization]
    header, [`Bearer ${token}|${email}`]. *)
Definition getAuthHeaders (localStorage : storage) : string :=
  "Bearer " +:+ interpolate (getItem "authToken" localStorage) +:+ "|"
  +:+ interpolate (getItem "authEmail" localStorage).

(** [LoginComponent.onLogin], on a successful answer carrying [code]. *)
Definition onLoginSuccess (email code : string) (localStorage : storage)
  : storage :=
  setItem "pendingCode" code (setItem "pendingEmail" email localStorage).

(** The [email] field of [VerifyComponent]:
    [localStorage.getItem('pendingEmail') || '']. *)
Definition pendingEmail (localStorage : storage) : string :=
  match getItem "pendingEmail" localStorage with
  | Some email => if truthy email then email else ""
  | None => ""
  end.

(** [VerifyComponent.onVerify], on a successful answer; the router is then
    sent to [/investment]. *)
Definition onVerifySuccess (email : string) (localStorage : storage)
  : storage :=
  removeItem "pendingCode"
    (removeItem "pendingEmail" (setSession "VALID" email localStorage)).

(** [AppComponent.logout]; the page is then reloaded at [/login]. *)
Definition logout (localStorage : storage) : storage :=
  clearSession localStorage.

End Session.

(* ===================================================================== *)
(** * Properties *)
(* ===================================================================== *)

(** ** Comparisons of numbers against zero *)

Module NumberFacts.

Import JSNumber.
Local Open Scope float_scope.

Lemma Prim2SF_zero : Prim2SF 0 = S754_zero false.
Proof. reflexivity. Qed.

Lemma SFeqb_self_finite s m e :
  SFeqb (S754_finite s m e) (S754_finite s m e) = true.
Proof.
  unfold SFeqb, SFcompare.
  destruct s; rewrite Z.compare_refl, Pos.compare_cont_refl; reflexivity.
Qed.

(** [isNaN] holds of the NaN class only. *)
Lemma isNaN_class x :
  isNaN x = match Prim2SF x with S754_nan => true | _ => false end.
Proof.
  unfold isNaN, is_nan. rewrite FloatAxioms.eqb_spec.
  destruct (Prim2SF x) as [s | s | | s m e]; try (destruct s; reflexivity).
  - reflexivity.
  - now rewrite SFeqb_self_finite.
Qed.

Ltac by_class x :=
  unfold gtb, geb; rewrite ?isNaN_class, ?ltb_spec, ?leb_spec, ?Prim2SF_zero;
  destruct (Prim2SF x) as [[|] | [|] | | [|] ? ?]; cbn; intuition congruence.

Lemma gt_zero_passes x :
  gtb x 0 = true -> isNaN x = false /\ (x <=? 0) = false.
Proof. by_class x. Qed.

Lemma ge_zero_passes x :
  geb x 0 = true -> isNaN x = false /\ (x <? 0) = false.
Proof. by_class x. Qed.

Lemma not_gt_zero_fails x :
  gtb x 0 = false -> isNaN x = true \/ (x <=? 0) = true.
Proof. by_class x. Qed.

Lemma not_ge_zero_fails x :
  geb x 0 = false -> isNaN x = true \/ (x <? 0) = true.
Proof. by_class x. Qed.

(** Subtracting zero from a positive number leaves it as it is. *)
Lemma sub_zero_positive x : gtb x 0 = true -> x - 0 = x.
Proof.
  intros Hx.
  assert (E : Prim2SF (x - 0) = Prim2SF x).
  { rewrite sub_spec, Prim2SF_zero. revert Hx.
    unfold gtb. rewrite ltb_spec, Prim2SF_zero.
    destruct (Prim2SF x) as [[|] | [|] | | [|] ? ?]; cbn; congruence. }
  rewrite <- (SF2Prim_Prim2SF (x - 0)), E. apply SF2Prim_Prim2SF.
Qed.

End NumberFacts.

(** ** The savings-goal optimizer *)

Module GoalFacts.

Import JSNumber GoalController NumberFacts.
Local Open Scope float_scope.

Section Search.

Variables goal totalMonths monthlyRate : float.

Lemma bracket_initial : bracket goal totalMonths monthlyRate (initialSearch goal).
Proof. unfold bracket, initialSearch; cbn; auto. Qed.

Lemma searchStep_bracket s s' :
  bracket goal totalMonths monthlyRate s ->
  searchStep goal totalMonths monthlyRate s = Some s' ->
  bracket goal totalMonths monthlyRate s'.
Proof.
  intros (Hhi & Hlo & _). unfold searchStep.
  destruct (simulateInvestment _ _ _) as [[bal projection] |] eqn:Hsim;
    [| discriminate].
  destruct (bal <? goal) eqn:Hcmp; intros [= <-]; cbn.
  - split; [exact Hhi | split; [right | auto]].
    unfold undershoots. eauto.
  - split; [right | split; [exact Hlo | auto]].
    unfold reaches. eauto.
Qed.

(** The loop hands back a state only through the failed width test. *)
Lemma searchLoop_exit fuel : forall s s',
  searchLoop fuel goal totalMonths monthlyRate s = Some s' ->
  gtb (high s' - low s') 0.01 = false.
Proof.
  induction fuel as [| fuel IH]; intros s s'; cbn;
    destruct (gtb (high s - low s) 0.01) eqn:Hw; try discriminate.
  - intros H; inversion H; subst; exact Hw.
  - destruct (searchStep _ _ _ s) as [s1 |]; [apply IH | discriminate].
  - intros H; inversion H; subst; exact Hw.
Qed.

Lemma searchLoop_bracket fuel : forall s s',
  bracket goal totalMonths monthlyRate s ->
  searchLoop fuel goal totalMonths monthlyRate s = Some s' ->
  bracket goal totalMonths monthlyRate s'.
Proof.
  induction fuel as [| fuel IH]; intros s s' Hs; cbn;
    destruct (gtb (high s - low s) 0.01); try discriminate.
  - intros H; inversion H; subst; exact Hs.
  - destruct (searchStep _ _ _ s) as [s1 |] eqn:Hstep; [| discriminate].
    apply IH. eapply searchStep_bracket; eauto.
  - intros H; inversion H; subst; exact Hs.
Qed.

(** Stuck bounds are never left. *)
Lemma stuck_never_exits lo hi :
  stuck goal totalMonths monthlyRate lo hi ->
  forall fuel s, low s = lo -> high s = hi ->
    searchLoop fuel goal totalMonths monthlyRate s = None.
Proof.
  intros [Hw Hstep]. induction fuel as [| fuel IH]; intros s Hlo Hhi; cbn;
    rewrite Hlo, Hhi, Hw; [reflexivity |].
  destruct (Hstep s Hlo Hhi) as (s1 & -> & Hlo1 & Hhi1). now apply IH.
Qed.

(** Running [n] passes first and the rest afterwards. *)
Lemma searchLoop_after_passes n : forall s sn fuel,
  passes goal totalMonths monthlyRate n s = Some sn ->
  searchLoop fuel goal totalMonths monthlyRate s = None
  \/ exists rest, fuel = (n + rest)%nat
       /\ searchLoop fuel goal totalMonths monthlyRate s
          = searchLoop rest goal totalMonths monthlyRate sn.
Proof.
  induction n as [| n IH]; intros s sn fuel; cbn.
  - intros H; inversion H; subst. right. now exists fuel.
  - destruct (gtb (high s - low s) 0.01) eqn:Hw; [| discriminate].
    destruct (searchStep _ _ _ s) as [s1 |] eqn:Hstep; [| discriminate].
    intros Hn. destruct fuel as [| fuel]; cbn; rewrite Hw; [now left |].
    rewrite Hstep. destruct (IH s1 sn fuel Hn) as [-> | (rest & -> & ->)];
      [now left |]. right. now exists rest.
Qed.

End Search.

(** The handler on a request that passes validation. *)
Lemma calculate_in_range ston fuel body :
  violatesRange ston body = false ->
  calculateRequiredDeposit ston fuel body
  = let goal := Number ston (goalAmount body) in
    match searchLoop fuel goal (Number ston (months body))
            (Number ston (annualRate body) / 100 / 12) (initialSearch goal)
    with
    | None => None
    | Some s =>
        match mid s with
        | None => Some ServerError500
        | Some m => Some (Ok200 (toFixed2 m) (finalProjection s) (iterations s))
        end
    end.
Proof.
  unfold violatesRange, calculateRequiredDeposit. intros V.
  repeat (apply orb_false_elim in V; destruct V as [V ?]).
  repeat match goal with
         | H : negb _ = false |- _ => apply negb_false_iff in H
         end.
  repeat match goal with
         | H : gtb _ 0 = true |- _ =>
             apply gt_zero_passes in H; destruct H as [-> ->]
         | H : geb _ 0 = true |- _ =>
             apply ge_zero_passes in H; destruct H as [-> ->]
         | H : isUndefined _ = false |- _ => rewrite H; clear H
         end.
  reflexivity.
Qed.

(** A request that does not pass validation is answered 400 at once. *)
Lemma calculate_out_of_range ston body :
  violatesRange ston body = true ->
  exists msg, forall fuel,
    calculateRequiredDeposit ston fuel body = Some (BadRequest400 msg).
Proof.
  unfold violatesRange, calculateRequiredDeposit. intros V.
  destruct (isUndefined (goalAmount body) || isUndefined (months body)
            || isUndefined (annualRate body)); [eauto |].
  destruct (isNaN (Number ston (goalAmount body))
            || isNaN (Number ston (months body))
            || isNaN (Number ston (annualRate body))) eqn:N; [eauto |].
  repeat (apply orb_false_elim in N; destruct N as [N ?]).
  assert (R : (Number ston (goalAmount body) <=? 0)
              || (Number ston (months body) <=? 0)
              || (Number ston (annualRate body) <? 0) = true).
  { cbn in V. repeat (apply orb_true_iff in V; destruct V as [V | V]);
      apply negb_true_iff in V;
      [apply not_gt_zero_fails in V | apply not_gt_zero_fails in V
       | apply not_ge_zero_fails in V];
      destruct V as [V | V]; try congruence; rewrite V;
      rewrite ?orb_true_r; reflexivity. }
  rewrite R. eauto.
Qed.

(** *** Shape of a simulated projection *)

Lemma simulateLoop_rows trips : forall i deposit monthlyRate bal projection,
  exists rows,
    snd (simulateLoop trips i deposit monthlyRate bal projection)
    = projection ++ rows
    /\ length rows = trips
    /\ map month rows = map (fun k => (i + Z.of_nat k)%Z) (seq 0 trips)
    /\ Forall rounded rows.
Proof.
  induction trips as [| trips IH]; intros i deposit monthlyRate bal projection.
  - exists []. cbn. rewrite app_nil_r. auto.
  - cbn [simulateLoop].
    set (bal1 := bal + deposit + (bal + deposit) * monthlyRate).
    destruct (IH (i + 1)%Z deposit monthlyRate bal1
                (projection ++ [mkPoint i (numberOfFixed2 (toFixed2 bal1))]))
      as (rows & Heq & Hlen & Hmonths & Hrounded).
    exists (mkPoint i (numberOfFixed2 (toFixed2 bal1)) :: rows).
    rewrite Heq, <- app_assoc. cbn [app length map seq month].
    repeat split; auto.
    + rewrite Hmonths, <- seq_shift, map_map. f_equal; [lia |].
      apply map_ext. intros k. lia.
    + constructor; [now exists bal1 | exact Hrounded].
Qed.

Lemma simulateInvestment_complete totalMonths monthlyRate deposit bal rows :
  simulateInvestment totalMonths monthlyRate deposit = Some (bal, rows) ->
  exists trips,
    forTrips totalMonths = Some trips /\ completeProjection trips rows.
Proof.
  unfold simulateInvestment.
  destruct (forTrips totalMonths) as [trips |]; [| discriminate].
  intros H; inversion H as [Hpair]. exists trips. split; [reflexivity |].
  destruct (simulateLoop_rows trips 1 deposit monthlyRate 0 [])
    as (rows' & Heq & Hlen & Hmonths & Hrounded).
  rewrite Hpair in Heq. cbn in Heq. subst rows'.
  repeat split; auto. rewrite Hmonths, <- seq_shift, map_map.
  apply map_ext. intros k. lia.
Qed.

Section Projection.

Variables goal totalMonths monthlyRate : float.

Lemma searchLoop_projection fuel : forall s s',
  emptyOrComplete totalMonths s ->
  searchLoop fuel goal totalMonths monthlyRate s = Some s' ->
  emptyOrComplete totalMonths s'.
Proof.
  induction fuel as [| fuel IH]; intros s s' Hs; cbn;
    destruct (gtb (high s - low s) 0.01); try discriminate.
  - intros H; inversion H; subst; exact Hs.
  - unfold searchStep.
    destruct (simulateInvestment _ _ _) as [[bal rows] |] eqn:Hsim;
      [| discriminate].
    destruct (bal <? goal); apply IH; unfold emptyOrComplete; cbn; [exact Hs |].
    right. eapply simulateInvestment_complete; eauto.
  - intros H; inversion H; subst; exact Hs.
Qed.

End Projection.

(** X1.  The projection of a 200 answer is empty, or it has one row for
    each pass of the simulation's loop, numbered from 1, with balances
    printed with two decimals. *)
Theorem projection_empty_or_complete ston fuel body rd projection its :
  calculateRequiredDeposit ston fuel body = Some (Ok200 rd projection its) ->
  projection = []
  \/ exists trips,
       forTrips (Number ston (months body)) = Some trips
       /\ completeProjection trips projection.
Proof.
  intros Hcall. destruct (violatesRange ston body) eqn:V.
  { destruct (calculate_out_of_range ston body V) as [msg Hmsg].
    rewrite Hmsg in Hcall. discriminate. }
  rewrite (calculate_in_range ston fuel body V) in Hcall. cbv zeta in Hcall.
  destruct (searchLoop _ _ _ _ _) as [s |] eqn:Hloop; [| discriminate].
  destruct (mid s); [| discriminate]. inversion Hcall; subst.
  eapply searchLoop_projection; [| exact Hloop]. now left.
Qed.

Lemma projection_empty_or_complete_witness :
  exists rd projection its,
    calculateRequiredDeposit noStr 100 (numBody 100 2.5 0)
    = Some (Ok200 rd projection its)
    /\ (projection = []
        \/ exists trips,
             forTrips 2.5 = Some trips /\ completeProjection trips projection).
Proof.
  destruct (calculateRequiredDeposit noStr 100 (numBody 100 2.5 0))
    as [[rd projection its | |] |] eqn:Hcall;
    try (vm_compute in Hcall; discriminate).
  exists rd, projection, its. split; [reflexivity |].
  exact (projection_empty_or_complete noStr 100 (numBody 100 2.5 0)
           rd projection its Hcall).
Defined.

(** *** The deposit result and the target *)

(** X2.  On every request for which the handler answers with a deposit,
    the search ended with [high - low > 0.01] false; the final [high] is the
    goal itself or a tested deposit whose simulated final balance is not
    below the goal; the final [low] is zero or a tested deposit whose
    balance is below the goal; and the deposit answered is one of these
    two bounds printed with two decimals. *)
Theorem deposit_result_brackets_goal ston fuel body rd projection its :
  calculateRequiredDeposit ston fuel body = Some (Ok200 rd projection its) ->
  let goal := Number ston (goalAmount body) in
  let totalMonths := Number ston (months body) in
  let monthlyRate := Number ston (annualRate body) / 100 / 12 in
  exists s,
    searchLoop fuel goal totalMonths monthlyRate (initialSearch goal) = Some s
    /\ gtb (high s - low s) 0.01 = false
    /\ (high s = goal \/ reaches goal totalMonths monthlyRate (high s))
    /\ (low s = 0 \/ undershoots goal totalMonths monthlyRate (low s))
    /\ (rd = toFixed2 (low s) \/ rd = toFixed2 (high s))
    /\ projection = finalProjection s
    /\ its = iterations s.
Proof.
  intros Hcall goal totalMonths monthlyRate.
  destruct (violatesRange ston body) eqn:V.
  { destruct (calculate_out_of_range ston body V) as [msg Hmsg].
    rewrite Hmsg in Hcall. discriminate. }
  rewrite (calculate_in_range ston fuel body V) in Hcall. cbv zeta in Hcall.
  fold goal totalMonths monthlyRate in Hcall.
  destruct (searchLoop fuel goal totalMonths monthlyRate (initialSearch goal))
    as [s |] eqn:Hloop; [| discriminate].
  destruct (mid s) as [m |] eqn:Hmid; [| discriminate].
  inversion Hcall; subst rd projection its.
  destruct (searchLoop_bracket goal totalMonths monthlyRate fuel _ s
              (bracket_initial goal totalMonths monthlyRate) Hloop)
    as (Hhi & Hlo & Hm).
  exists s. repeat split; auto.
  - eapply searchLoop_exit; eauto.
  - rewrite Hmid in Hm. destruct Hm as [Hm | [Hm | Hm]];
      inversion Hm; auto.
Qed.

Lemma deposit_result_brackets_goal_witness :
  exists rd projection its s,
    calculateRequiredDeposit noStr 100 (numBody 10000 12 0)
    = Some (Ok200 rd projection its)
    /\ searchLoop 100 10000 12 (0 / 100 / 12) (initialSearch 10000) = Some s
    /\ gtb (high s - low s) 0.01 = false
    /\ (rd = toFixed2 (low s) \/ rd = toFixed2 (high s)).
Proof.
  destruct (calculateRequiredDeposit noStr 100 (numBody 10000 12 0))
    as [[rd projection its | |] |] eqn:Hcall;
    try (vm_compute in Hcall; discriminate).
  destruct (deposit_result_brackets_goal noStr 100 (numBody 10000 12 0)
              rd projection its Hcall) as (s & Hs & Hw & _ & _ & Hrd & _).
  exists rd, projection, its, s. auto.
Defined.

(** C1 at a failing input, the spec's own example: for a goal of 10000
    over 12 months at 0 percent the search ends with [low] printing as
    833.33 and [high] as 833.34; the last midpoint is that [low], the
    handler answers 833.33, and twelve deposits of 833.33 end below 10000,
    while twelve deposits of 833.34 reach it. *)
Theorem answered_deposit_is_last_mid :
  requiredDepositOf (calculateRequiredDeposit noStr 100 (numBody 10000 12 0))
  = Some (Fx false 83333)
  /\ fixed2Text (Fx false 83333) = Some "833.33"%string
  /\ option_map (fun s => (toFixed2 (low s), toFixed2 (high s)))
       (searchLoop 100 10000 12 (0 / 100 / 12) (initialSearch 10000))
     = Some (Fx false 83333, Fx false 83334)
  /\ option_map (fun s => match mid s with
                          | Some m => m =? low s
                          | None => false
                          end)
       (searchLoop 100 10000 12 (0 / 100 / 12) (initialSearch 10000))
     = Some true
  /\ option_map (fun bal => bal <? 10000)
       (simulatedBalance 12 0 (numberOfFixed2 (Fx false 83333)))
     = Some true
  /\ option_map (fun bal => bal <? 10000)
       (simulatedBalance 12 0 (numberOfFixed2 (Fx false 83334)))
     = Some false.
Proof. repeat split; vm_compute; reflexivity. Qed.

(** Printing with two decimals can fall short on its own: for a goal of
    5000 over 24 months at 3 percent the last midpoint is the final
    [high], it prints as 201.90, and 24 deposits of 201.90 end below
    5000. *)
Lemma rounded_deposit_misses_goal :
  requiredDepositOf (calculateRequiredDeposit noStr 100 (numBody 5000 24 3))
  = Some (Fx false 20190)
  /\ fixed2Text (Fx false 20190) = Some "201.90"%string
  /\ option_map (fun s => match mid s with
                          | Some m => m =? high s
                          | None => false
                          end)
       (searchLoop 100 5000 24 (3 / 100 / 12) (initialSearch 5000))
     = Some true
  /\ option_map (fun bal => bal <? 5000)
       (simulatedBalance 24 3 (numberOfFixed2 (Fx false 20190)))
     = Some true.
Proof. repeat split; vm_compute; reflexivity. Qed.

(** *** The projection *)

(** C2 at a failing input: for a goal of 100 in one month at 0 percent
    every midpoint falls short, no projection is ever recorded, and the
    answer carries an empty projection. *)
Theorem projection_empty_for_one_month :
  calculateRequiredDeposit noStr 100 (numBody 100 1 0)
  = Some (Ok200 (Fx false 9999) [] 14).
Proof. vm_compute. reflexivity. Qed.

(** *** Iterations *)

(** Just below 1e15 neighbouring numbers are 0.125 apart: the midpoint of
    [1e15 - 0.125] and [1e15] is rounded to [1e15], which reaches the goal
    and becomes the new [high], so the pass changes neither bound. *)
Lemma stuck_below_1e15 : stuck 1e15 1 (0 / 100 / 12) (1e15 - 0.125) 1e15.
Proof.
  split; [vm_compute; reflexivity |].
  intros [lo hi m its fp] Hlo Hhi. cbn in Hlo, Hhi. subst lo hi.
  unfold searchStep. cbn [low high iterations finalProjection].
  set (r := simulateInvestment 1 (0 / 100 / 12) ((1e15 - 0.125 + 1e15) / 2)).
  vm_compute in r. subst r. cbv iota beta.
  set (c := (1e15 <? 1e15)). vm_compute in c. subst c. cbv iota.
  eexists. split; [reflexivity |]. split; vm_compute; reflexivity.
Qed.

Lemma search_never_exits_at_1e15 fuel :
  searchLoop fuel 1e15 1 (0 / 100 / 12) (initialSearch 1e15) = None.
Proof.
  assert (Hp : exists sn,
             passes 1e15 1 (0 / 100 / 12) 53 (initialSearch 1e15) = Some sn
             /\ low sn = 1e15 - 0.125 /\ high sn = 1e15).
  { eexists. split; [vm_compute; reflexivity |].
    split; vm_compute; reflexivity. }
  destruct Hp as (sn & Hp & Hlo & Hhi).
  destruct (searchLoop_after_passes 1e15 1 (0 / 100 / 12) 53 _ sn fuel Hp)
    as [-> | (rest & _ & ->)]; [reflexivity |].
  exact (stuck_never_exits 1e15 1 (0 / 100 / 12) _ _ stuck_below_1e15
           rest sn Hlo Hhi).
Qed.

(** X3.  The handler never answers the request (1e15, 1 month, 0 percent),
    which passes validation: whatever the number of passes allowed, the
    loop is still running. *)
Theorem handler_never_answers_1e15 fuel :
  violatesRange noStr (numBody 1e15 1 0) = false
  /\ calculateRequiredDeposit noStr fuel (numBody 1e15 1 0) = None.
Proof.
  split; [vm_compute; reflexivity |].
  rewrite calculate_in_range by (vm_compute; reflexivity).
  cbn [Number goalAmount months annualRate numBody]. cbv zeta.
  now rewrite search_never_exits_at_1e15.
Qed.

(** C3 at a failing input.  Nothing limits the passes of the loop.  A
    goal of 1e30 in 100 months at 1200 percent is answered 200 after 107
    passes; and with a goal of 1e15 in one month at 0 percent the loop has
    not ended after 100 passes, nor after 1000 (on that request it never
    ends). *)
Theorem search_exceeds_100_passes :
  iterationsOf (calculateRequiredDeposit noStr 200 (numBody 1e30 100 1200))
  = Some 107%nat
  /\ calculateRequiredDeposit noStr 100 (numBody 1e15 1 0) = None
  /\ calculateRequiredDeposit noStr 1000 (numBody 1e15 1 0) = None.
Proof. repeat split; vm_compute; reflexivity. Qed.

(** *** Validation *)


(** Fields that are not numbers but convert to one pass validation as
    well: a [null] rate counts as 0 and a [true] months counts as 1. *)
Lemma coerced_fields_are_accepted :
  requiredDepositOf
    (calculateRequiredDeposit noStr 100 (mkBody (JNum 1200) (JNum 12) JNull))
  = Some (Fx false 10000)
  /\ requiredDepositOf
       (calculateRequiredDeposit noStr 100
          (mkBody (JNum 100) (JBool true) JNull))
     = Some (Fx false 9999).
Proof. split; vm_compute; reflexivity. Qed.



(** *** A goal no wider than the tolerance *)

(** C10.  For a goal greater than zero and not greater than 0.01, with
    months and rate that pass validation, the width test fails before the
    first pass: the loop hands back the initial state, in which [mid] has
    no value and no pass is counted, and the answer is 500. *)
Theorem tiny_goal_answers_500 ston fuel g m r :
  gtb g 0 = true ->
  gtb g 0.01 = false ->
  isUndefined m = false -> gtb (Number ston m) 0 = true ->
  isUndefined r = false -> geb (Number ston r) 0 = true ->
  searchLoop fuel g (Number ston m) (Number ston r / 100 / 12)
    (initialSearch g) = Some (initialSearch g)
  /\ mid (initialSearch g) = None
  /\ iterations (initialSearch g) = O
  /\ calculateRequiredDeposit ston fuel (mkBody (JNum g) m r)
     = Some ServerError500.
Proof.
  intros Hg Hw Hm Hm0 Hr Hr0.
  assert (Hloop : searchLoop fuel g (Number ston m) (Number ston r / 100 / 12)
                    (initialSearch g) = Some (initialSearch g)).
  { unfold initialSearch.
    destruct fuel; cbn [searchLoop low high];
      rewrite (sub_zero_positive g Hg), Hw; reflexivity. }
  repeat split; [exact Hloop |].
  rewrite calculate_in_range.
  - cbn [Number goalAmount months annualRate]. cbv zeta. now rewrite Hloop.
  - unfold violatesRange. cbn [Number goalAmount months annualRate isUndefined].
    now rewrite Hg, Hm, Hm0, Hr, Hr0.
Qed.

Lemma tiny_goal_answers_500_witness :
  calculateRequiredDeposit noStr 0 (numBody 0.005 12 5) = Some ServerError500.
Proof.
  apply (tiny_goal_answers_500 noStr 0 0.005 (JNum 12) (JNum 5));
    vm_compute; reflexivity.
Defined.

End GoalFacts.

(** ** The login limiter *)

Module RateLimiterFacts.

Import RateLimiter.
Local Open Scope Z_scope.

Local Ltac step := cbn -[Z.gtb Z.sub].

(** [evict] drops a prefix of expired timestamps and stops at the first
    one that is not expired. *)
Lemma evict_prefix now attempts :
  exists dropped,
    attempts = dropped ++ evict now attempts
    /\ Forall (fun t => expired now t = true) dropped
    /\ match evict now attempts with
       | [] => True
       | t :: _ => expired now t = false
       end.
Proof.
  induction attempts as [| t rest IH]; step.
  - exists []. auto.
  - destruct (now - t >? WINDOW_MS) eqn:Ht.
    + destruct IH as (dropped & Heq & Hall & Hhead).
      exists (t :: dropped). step. rewrite <- Heq. auto.
    + exists []. repeat split; [constructor | exact Ht].
Qed.

Lemma evict_length now attempts :
  (length (evict now attempts) <= length attempts)%nat.
Proof.
  induction attempts as [| t rest IH]; step; [lia |].
  destruct (now - t >? WINDOW_MS); step; lia.
Qed.

Lemma evict_same_length now attempts :
  length (evict now attempts) = length attempts ->
  evict now attempts = attempts.
Proof.
  destruct attempts as [| t rest]; step; [reflexivity |].
  destruct (now - t >? WINDOW_MS); [| reflexivity].
  pose proof (evict_length now rest). lia.
Qed.

(** On timestamps in ascending order nothing expired is left behind the
    first one kept. *)
Lemma evict_ascending now attempts :
  ascending attempts ->
  evict now attempts
  = List.filter (fun t => negb (expired now t)) attempts.
Proof.
  induction attempts as [| t rest IH]; step; [reflexivity |].
  intros [Hle Hasc]. unfold expired at 1.
  destruct (now - t >? WINDOW_MS) eqn:Ht; step; [auto |].
  f_equal. clear IH Hasc. induction Hle as [| u rest Hu _ IH]; step;
    [reflexivity |].
  unfold expired at 1.
  replace (now - u >? WINDOW_MS) with false by lia. step. now f_equal.
Qed.

(** Under a clock that never runs backwards the records stay in ascending
    order, so the previous lemma applies to every call. *)
Lemma ascending_suffix dropped kept :
  ascending (dropped ++ kept) -> ascending kept.
Proof.
  induction dropped as [| t dropped IH]; [trivial |].
  intros [_ Hrest]. now apply IH.
Qed.

Lemma ascending_snoc l now :
  ascending l -> Forall (fun t => t <= now) l -> ascending (l ++ [now]).
Proof.
  induction l as [| t l IH]; intros Hasc Hle.
  - repeat constructor.
  - destruct Hasc as [Hhead Hasc]. inversion Hle as [| ? ? Ht Hl]; subst.
    split; [| now apply IH].
    apply Forall_app. split; [exact Hhead | now constructor].
Qed.

Lemma ascending_after_call now attempts :
  ascending attempts ->
  Forall (fun t => t <= now) attempts ->
  ascending (evict now attempts ++ [now])
  /\ Forall (fun t => t <= now) (evict now attempts ++ [now]).
Proof.
  intros Hasc Hle.
  destruct (evict_prefix now attempts) as (dropped & Heq & _ & _).
  rewrite Heq in Hasc, Hle. apply Forall_app in Hle as [_ Hkept].
  split.
  - apply ascending_snoc; [eapply ascending_suffix; eauto | exact Hkept].
  - apply Forall_app. split; [exact Hkept |]. constructor; [lia | constructor].
Qed.

(** The call in one equation: the answer is whether fewer than five
    timestamps are kept, and the identity's record becomes the kept
    timestamps, with [now] appended when the call is allowed. *)
Lemma checkRateLimit_eq email now (st : gmap string (list Z)) :
  let kept := evict now (default [] (st !! email)) in
  checkRateLimit email now st
  = if decide (MAX_ATTEMPTS <= length kept)%nat
    then (false, <[email := kept]> st)
    else (true, <[email := kept ++ [now]]> st).
Proof.
  unfold checkRateLimit. destruct (st !! email) as [l |] eqn:Hl; step.
  - rewrite Hl. reflexivity.
  - rewrite lookup_insert_eq. step. rewrite !insert_insert_eq. reflexivity.
Qed.

(** Under a clock that never runs backwards every record is in ascending
    order and holds no timestamp later than the latest reading. *)
Lemma chronological_ascending t (st : gmap string (list Z)) :
  chronological t st ->
  forall email l,
    st !! email = Some l -> ascending l /\ Forall (fun u => u <= t) l.
Proof.
  induction 1 as [t | t who now st Hst IH Hnow]; intros email l.
  - rewrite lookup_empty. discriminate.
  - assert (Hold : forall email l, st !! email = Some l ->
                     ascending l /\ Forall (fun u => u <= now) l).
    { intros e l0 Hl0. destruct (IH e l0 Hl0) as [Hasc Hle].
      split; [exact Hasc |]. eapply Forall_impl; [exact Hle |].
      intros u Hu. cbn in Hu. lia. }
    assert (Hkept : ascending (evict now (default [] (st !! who)))
                    /\ Forall (fun u => u <= now)
                         (evict now (default [] (st !! who)))).
    { destruct (st !! who) as [l0 |] eqn:Hl0; cbn [default from_option id];
        [| split; constructor].
      destruct (Hold who l0 Hl0) as [Hasc Hle].
      destruct (evict_prefix now l0) as (dropped & Heq & _ & _).
      rewrite Heq in Hasc, Hle. apply Forall_app in Hle as [_ Hle].
      split; [eapply ascending_suffix; eauto | exact Hle]. }
    rewrite checkRateLimit_eq. cbv zeta.
    destruct (decide (MAX_ATTEMPTS <= length _)%nat) as [Hfull | Hroom];
      cbn [snd];
      (destruct (decide (who = email)) as [-> | Hne];
       [rewrite lookup_insert_eq | rewrite lookup_insert_ne by done; apply Hold]).
    + intros H; inversion H; subst. exact Hkept.
    + intros H; inversion H; subst. destruct Hkept as [Hasc Hle]. split.
      * now apply ascending_snoc.
      * apply Forall_app. split; [exact Hle |].
        constructor; [lia | constructor].
Qed.

(** No record ever holds more than five timestamps. *)
Lemma reachable_bounded (st : gmap string (list Z)) :
  reachable st ->
  forall email l, st !! email = Some l -> (length l <= MAX_ATTEMPTS)%nat.
Proof.
  induction 1 as [| who now st Hst IH]; intros email l.
  - rewrite lookup_empty. discriminate.
  - rewrite checkRateLimit_eq. cbv zeta.
    destruct (decide (MAX_ATTEMPTS <= length _)%nat) as [Hfull | Hroom]; step;
      (destruct (decide (who = email)) as [-> | Hne];
       [rewrite lookup_insert_eq | rewrite lookup_insert_ne by done; apply IH]).
    + intros H; inversion H; subst.
      destruct (st !! email) as [l0 |] eqn:Hl0; cbn -[Z.gtb Z.sub] in *;
        [| unfold MAX_ATTEMPTS in *; lia].
      pose proof (evict_length now l0). pose proof (IH email l0 Hl0). lia.
    + intros H; inversion H; subst. rewrite length_app. step. lia.
Qed.

Lemma reachable_callsAt email times : forall st,
  reachable st -> reachable (snd (callsAt email times st)).
Proof.
  induction times as [| now later IH]; intros st Hst; step; [exact Hst |].
  destruct (checkRateLimit email now st) as [ok st1] eqn:Hcall.
  specialize (IH st1). destruct (callsAt email later st1) as [oks final].
  cbn -[Z.gtb Z.sub] in *. apply IH. change st1 with (snd (ok, st1)). rewrite <- Hcall.
  now constructor.
Qed.

Lemma evict_expired_head now t rest :
  now - t > WINDOW_MS -> evict now (t :: rest) = evict now rest.
Proof.
  intros Hold. cbn [evict]. now replace (now - t >? WINDOW_MS) with true by lia.
Qed.

Lemma call_fresh email now (st : gmap string (list Z)) :
  st !! email = None ->
  checkRateLimit email now st = (true, <[email := [now]]> st).
Proof.
  intros Hnone. rewrite checkRateLimit_eq. cbv zeta. rewrite Hnone. step.
  destruct (decide _) as [Hfull | _]; [| reflexivity].
  unfold MAX_ATTEMPTS in Hfull. lia.
Qed.

Lemma call_in_window email now (st : gmap string (list Z)) t l :
  st !! email = Some (t :: l) ->
  now - t <= WINDOW_MS ->
  checkRateLimit email now st
  = if decide (MAX_ATTEMPTS <= length (t :: l))%nat
    then (false, <[email := t :: l]> st)
    else (true, <[email := (t :: l) ++ [now]]> st).
Proof.
  intros Hl Hrecent. rewrite checkRateLimit_eq. cbv zeta. rewrite Hl.
  cbn [default from_option id evict]. replace (now - t >? WINDOW_MS) with false by lia.
  reflexivity.
Qed.

Lemma call_allowed email now (st : gmap string (list Z)) t l :
  st !! email = Some (t :: l) ->
  now - t <= WINDOW_MS ->
  (length (t :: l) < MAX_ATTEMPTS)%nat ->
  checkRateLimit email now st = (true, <[email := (t :: l) ++ [now]]> st).
Proof.
  intros Hl Hrecent Hroom. rewrite (call_in_window email now st t l Hl Hrecent).
  destruct (decide _) as [Hfull | _]; [lia | reflexivity].
Qed.

Lemma call_denied email now (st : gmap string (list Z)) t l :
  st !! email = Some (t :: l) ->
  now - t <= WINDOW_MS ->
  (MAX_ATTEMPTS <= length (t :: l))%nat ->
  checkRateLimit email now st = (false, <[email := t :: l]> st).
Proof.
  intros Hl Hrecent Hfull. rewrite (call_in_window email now st t l Hl Hrecent).
  destruct (decide _) as [_ | Hroom]; [reflexivity | lia].
Qed.

Lemma fst_callsAt_cons email now later (st : gmap string (list Z)) :
  fst (callsAt email (now :: later) st)
  = fst (checkRateLimit email now st)
    :: fst (callsAt email later (snd (checkRateLimit email now st))).
Proof.
  cbn [callsAt]. destruct (checkRateLimit email now st) as [ok st1].
  cbn [fst snd]. destruct (callsAt email later st1). reflexivity.
Qed.

(** C6, as amended.  Every call trims the longest prefix of expired timestamps from the
    identity's record (on a record in ascending order, as every record is
    while the clock never runs backwards, exactly the expired timestamps);
    with five or more left it answers [false] and records
    nothing, otherwise it appends [now] and answers [true].  Hence, for a
    fresh identity, five calls followed by a sixth, all within 60 seconds
    of the first, are answered true five times and then false, and a call
    more than 60 seconds after the first is answered true again. *)
Theorem checkRateLimit_sliding_window :
  (forall email now (st : gmap string (list Z)),
      let before := default [] (st !! email) in
      let kept := evict now before in
      (exists dropped,
          before = dropped ++ kept
          /\ Forall (fun t => expired now t = true) dropped
          /\ match kept with
             | [] => True
             | t :: _ => expired now t = false
             end)
      /\ (ascending before ->
          kept = List.filter (fun t => negb (expired now t)) before)
      /\ (forall latest, chronological latest st ->
          kept = List.filter (fun t => negb (expired now t)) before)
      /\ checkRateLimit email now st
         = if decide (5 <= length kept)%nat
           then (false, <[email := kept]> st)
           else (true, <[email := kept ++ [now]]> st))
  /\ (forall email t1 t2 t3 t4 t5 t6 t7 (st : gmap string (list Z)),
        st !! email = None ->
        Forall (fun t => t - t1 <= 60 * 1000) [t2; t3; t4; t5; t6] ->
        t7 - t1 > 60 * 1000 ->
        fst (callsAt email [t1; t2; t3; t4; t5; t6; t7] st)
        = [true; true; true; true; true; false; true]).
Proof.
  split.
  - intros email now st before kept. split; [apply evict_prefix |].
    split; [apply evict_ascending |]. split; [| apply checkRateLimit_eq].
    intros latest Hst. apply evict_ascending. subst before.
    destruct (st !! email) as [l |] eqn:Hl; cbn [default from_option id].
    + exact (proj1 (chronological_ascending latest st Hst email l Hl)).
    + constructor.
  - intros email t1 t2 t3 t4 t5 t6 t7 st Hfresh Hwin Hlate.
    repeat match goal with
           | H : Forall _ (_ :: _) |- _ => inversion H; clear H; subst
           end.
    fold WINDOW_MS in *.
    rewrite fst_callsAt_cons, (call_fresh email t1 st Hfresh). cbn [fst snd].
    do 4 (rewrite fst_callsAt_cons;
          erewrite call_allowed;
          [| apply lookup_insert_eq | assumption
           | unfold MAX_ATTEMPTS; cbn [length]; lia];
          cbn [app fst snd]; rewrite insert_insert_eq).
    rewrite fst_callsAt_cons.
    erewrite call_denied;
      [| apply lookup_insert_eq | assumption
       | unfold MAX_ATTEMPTS; cbn [length]; lia].
    cbn [fst snd]. rewrite insert_insert_eq.
    rewrite fst_callsAt_cons, checkRateLimit_eq. cbv zeta.
    rewrite lookup_insert_eq.
    cbn [default from_option id]. rewrite evict_expired_head by assumption.
    pose proof (evict_length t7 [t2; t3; t4; t5]) as Hlen. cbn [length] in Hlen.
    destruct (decide _) as [Hfull | Hroom];
      [unfold MAX_ATTEMPTS in Hfull; lia | reflexivity].
Qed.

Lemma checkRateLimit_sliding_window_witness :
  fst (callsAt "ann@example.com" [0; 1000; 2000; 3000; 4000; 5000; 60001] ∅)
  = [true; true; true; true; true; false; true].
Proof.
  apply (proj2 checkRateLimit_sliding_window).
  - apply lookup_empty.
  - repeat constructor; lia.
  - lia.
Defined.

(** C6 as stated fails: the eviction stops at the first timestamp that
    is not expired, so an expired one behind it stays.  After calls at the
    clock readings 1000 and 0 (the clock was set back) the record is
    [1000; 0]; at 60500 the timestamp 0 is expired and 1000 is not, the
    call evicts nothing, and the record becomes [1000; 0; 60500]. *)
Lemma eviction_keeps_expired_behind_recent :
  snd (callsAt "ann@example.com" [1000; 0] ∅) !! "ann@example.com"%string
  = Some [1000; 0]
  /\ expired 60500 0 = true
  /\ expired 60500 1000 = false
  /\ evict 60500 [1000; 0] = [1000; 0]
  /\ List.filter (fun t => negb (expired 60500 t)) [1000; 0] = [1000]
  /\ checkRateLimit "ann@example.com" 60500
       (snd (callsAt "ann@example.com" [1000; 0] ∅))
     = (true,
        <["ann@example.com"%string := [1000; 0; 60500]]>
          (snd (callsAt "ann@example.com" [1000; 0] ∅))).
Proof.
  assert (Hrecord :
            snd (callsAt "ann@example.com" [1000; 0] ∅)
            !! "ann@example.com"%string
            = Some [1000; 0]).
  { cbn [callsAt]. rewrite call_fresh by apply lookup_empty.
    rewrite (call_allowed "ann@example.com" 0 _ 1000 []);
      [| apply lookup_insert_eq | unfold WINDOW_MS; lia
       | unfold MAX_ATTEMPTS; cbn [length]; lia].
    cbn [snd app]. apply lookup_insert_eq. }
  repeat split; try reflexivity; exact Hrecord.
Qed.

(** C7.  In every state the process can reach, a call that is denied
    leaves the map as it was. *)
Theorem denied_call_changes_nothing email now (st : gmap string (list Z)) :
  reachable st ->
  fst (checkRateLimit email now st) = false ->
  snd (checkRateLimit email now st) = st.
Proof.
  intros Hst. rewrite checkRateLimit_eq. cbv zeta.
  destruct (decide _) as [Hfull | Hroom]; [| discriminate]. intros _. step.
  destruct (st !! email) as [l |] eqn:Hl; step; cbn -[Z.gtb Z.sub] in Hfull.
  - pose proof (reachable_bounded st Hst email l Hl) as Hbound.
    pose proof (evict_length now l) as Hlen.
    rewrite (evict_same_length now l) by lia. now apply insert_id.
  - unfold MAX_ATTEMPTS in Hfull. lia.
Qed.

Lemma denied_call_changes_nothing_witness :
  fst (checkRateLimit "ann@example.com" 5000
         (snd (callsAt "ann@example.com" [0; 1000; 2000; 3000; 4000] ∅)))
  = false
  /\ snd (checkRateLimit "ann@example.com" 5000
            (snd (callsAt "ann@example.com" [0; 1000; 2000; 3000; 4000] ∅)))
     = snd (callsAt "ann@example.com" [0; 1000; 2000; 3000; 4000] ∅).
Proof.
  assert (Hdenied :
            fst (checkRateLimit "ann@example.com" 5000
                   (snd (callsAt "ann@example.com"
                           [0; 1000; 2000; 3000; 4000] ∅)))
            = false)
    by (vm_compute; reflexivity).
  split; [exact Hdenied |].
  apply denied_call_changes_nothing; [| exact Hdenied].
  apply reachable_callsAt. constructor.
Defined.

(** *** What the limiter guarantees over a whole run *)

(** Timestamps that are all expired are all evicted. *)
Lemma evict_all_expired now l :
  Forall (fun t => expired now t = true) l -> evict now l = [].
Proof.
  induction 1 as [| t l Ht _ IH]; [reflexivity |].
  cbn [evict]. unfold expired in Ht. now rewrite Ht.
Qed.

Lemma filter_window_expired now from l :
  from <= now -> now <= from + WINDOW_MS ->
  Forall (fun a => now - a > WINDOW_MS) l ->
  List.filter (inWindow from) l = [].
Proof.
  intros Hlo Hhi. induction 1 as [| a l Ha _ IH]; [reflexivity |].
  cbn [List.filter]. unfold inWindow at 1.
  replace (from <=? a) with false by lia. exact IH.
Qed.

Lemma filter_window_early now from :
  ~ (from <= now /\ now <= from + WINDOW_MS) ->
  List.filter (inWindow from) [now] = [].
Proof.
  intros Hout. cbn [List.filter]. unfold inWindow.
  destruct (from <=? now) eqn:H1; [| reflexivity].
  destruct (now <=? from + WINDOW_MS) eqn:H2; [| reflexivity]. lia.
Qed.

(** The invariant behind the window bound.  The allowed calls so far are
    [old ++ record]: [record] is what the map holds for the identity and
    every reading in [old] is expired at the latest clock reading. *)
Lemma admitted_window email calls : forall latest old st,
  ascending (latest :: map snd calls) ->
  ascending (default [] (st !! email)) ->
  Forall (fun t => t <= latest) (default [] (st !! email)) ->
  (length (default [] (st !! email)) <= MAX_ATTEMPTS)%nat ->
  Forall (fun a => latest - a > WINDOW_MS) old ->
  (forall from,
      (length (List.filter (inWindow from) (old ++ default [] (st !! email)))
       <= MAX_ATTEMPTS)%nat) ->
  forall from,
    (length (List.filter (inWindow from)
               (old ++ default [] (st !! email) ++ admitted email calls st))
     <= MAX_ATTEMPTS)%nat.
Proof.
  induction calls as [| [who now] later IH];
    intros latest old st Hclock Hasc Hle Hlen Hold Hcount from.
  - cbn [admitted]. rewrite app_nil_r. apply Hcount.
  - cbn [admitted]. cbn [map snd ascending] in Hclock.
    destruct Hclock as [Hhead Hlater].
    assert (Hnow : latest <= now) by (inversion Hhead; assumption).
    assert (Hold' : Forall (fun a => now - a > WINDOW_MS) old).
    { eapply Forall_impl; [exact Hold |]. intros a Ha. cbn in Ha. lia. }
    rewrite checkRateLimit_eq. cbv zeta.
    destruct (decide (who = email)) as [-> | Hne].
    + set (record := default [] (st !! email)) in *.
      destruct (evict_prefix now record) as (dropped & Hsplit & Hdropped & _).
      set (kept := evict now record) in *.
      assert (Hdropped' : Forall (fun a => now - a > WINDOW_MS) dropped).
      { eapply Forall_impl; [exact Hdropped |]. intros a Ha. cbn in Ha.
        unfold expired in Ha. lia. }
      assert (Hkept_asc : ascending kept).
      { rewrite Hsplit in Hasc. eapply ascending_suffix; eauto. }
      assert (Hkept_le : Forall (fun t => t <= now) kept).
      { rewrite Hsplit in Hle. apply Forall_app in Hle as [_ Hle].
        eapply Forall_impl; [exact Hle |]. intros a Ha. cbn in Ha. lia. }
      assert (Hkept_len : (length kept <= length record)%nat)
        by apply evict_length.
      destruct (decide (MAX_ATTEMPTS <= length kept)%nat) as [Hfull | Hroom];
        cbn [fst snd andb app].
      * specialize (IH now (old ++ dropped) (<[email := kept]> st)).
        rewrite lookup_insert_eq in IH. cbn [default from_option id] in IH.
        rewrite Hsplit at 1. rewrite <- app_assoc.
        rewrite (app_assoc old dropped). apply IH; try assumption.
        -- lia.
        -- apply Forall_app. split; assumption.
        -- intros from'. rewrite <- app_assoc, <- Hsplit. apply Hcount.
      * rewrite bool_decide_eq_true_2 by reflexivity.
        specialize (IH now (old ++ dropped) (<[email := kept ++ [now]]> st)).
        rewrite lookup_insert_eq in IH. cbn [default from_option id] in IH.
        rewrite Hsplit at 1. rewrite <- !app_assoc.
        rewrite (app_assoc old dropped), (app_assoc kept [now]).
        apply IH.
        -- exact Hlater.
        -- now apply ascending_snoc.
        -- apply Forall_app. split; [exact Hkept_le |].
           constructor; [lia | constructor].
        -- rewrite length_app. cbn [length]. lia.
        -- apply Forall_app. split; assumption.
        -- intros from'. rewrite <- app_assoc, (app_assoc dropped).
           rewrite !List.filter_app, !length_app.
           destruct (decide (from' <= now /\ now <= from' + WINDOW_MS))
             as [[Hlo Hhi] | Hout].
           ++ rewrite (filter_window_expired now from' old Hlo Hhi Hold').
              rewrite (filter_window_expired now from' dropped Hlo Hhi Hdropped').
              pose proof (filter_length_le (inWindow from') kept).
              pose proof (filter_length_le (inWindow from') [now]).
              cbn [length] in *. lia.
           ++ rewrite (filter_window_early now from' Hout).
              specialize (Hcount from'). rewrite Hsplit in Hcount.
              rewrite !List.filter_app, !length_app in Hcount.
              cbn [length]. lia.
    + rewrite (bool_decide_eq_false_2 _ Hne), andb_false_r.
      assert (Hsame : forall v, <[who := v]> st !! email = st !! email)
        by (intros v; now apply lookup_insert_ne).
      assert (Hle' : Forall (fun t => t <= now) (default [] (st !! email))).
      { eapply Forall_impl; [exact Hle |]. intros a Ha. cbn in Ha. lia. }
      destruct (decide (MAX_ATTEMPTS <= length _)%nat); cbn [fst snd app];
        (match goal with
         | |- context [admitted email later ?st'] => specialize (IH now old st')
         end; rewrite Hsame in IH; now apply IH).
Qed.

(** X4.  Under a clock that never runs backwards, whatever calls are made
    and for whatever identities, no identity is allowed more than five
    times in any window of 60 seconds. *)
Theorem at_most_five_per_window calls email from :
  ascending (map snd calls) ->
  (length (List.filter (inWindow from) (admitted email calls ∅)) <= 5)%nat.
Proof.
  intros Hclock.
  destruct calls as [| [who now] later]; [cbn; lia |].
  pose proof (admitted_window email ((who, now) :: later) now [] ∅) as H.
  rewrite lookup_empty in H. cbn [default from_option id app] in H.
  apply H.
  - split; [| exact Hclock]. cbn [map snd] in *. destruct Hclock as [Hhead _].
    constructor; [lia |]. exact Hhead.
  - exact I.
  - constructor.
  - cbn [length]. lia.
  - constructor.
  - intros from'. cbn [List.filter length]. lia.
Qed.

Lemma at_most_five_per_window_witness :
  admitted "ann@example.com"
    [("ann@example.com", 0); ("ann@example.com", 10); ("bob@example.com", 15);
     ("ann@example.com", 20); ("ann@example.com", 30); ("ann@example.com", 40);
     ("ann@example.com", 50); ("ann@example.com", 60001);
     ("ann@example.com", 60002)] ∅
  = [0; 10; 20; 30; 40; 60001]
  /\ (length
        (List.filter (inWindow 10%Z)
           (admitted "ann@example.com"
              [("ann@example.com", 0); ("ann@example.com", 10);
               ("bob@example.com", 15); ("ann@example.com", 20);
               ("ann@example.com", 30); ("ann@example.com", 40);
               ("ann@example.com", 50); ("ann@example.com", 60001);
               ("ann@example.com", 60002)]%Z ∅))
      <= 5)%nat.
Proof.
  split; [vm_compute; reflexivity |].
  apply at_most_five_per_window.
  cbn [map snd ascending]. repeat split; repeat constructor; lia.
Defined.

Lemma admitted_callsFor email calls : forall st1 st2 : gmap string (list Z),
  st1 !! email = st2 !! email ->
  admitted email calls st1 = admitted email (callsFor email calls) st2.
Proof.
  induction calls as [| [who now] later IH]; intros st1 st2 Hsame;
    [reflexivity |].
  cbn [admitted callsFor List.filter fst].
  destruct (decide (who = email)) as [-> | Hne].
  - rewrite bool_decide_eq_true_2 by reflexivity. cbn [admitted].
    rewrite !(bool_decide_eq_true_2 (email = email)) by reflexivity.
    rewrite !checkRateLimit_eq. cbv zeta. rewrite Hsame.
    destruct (decide (MAX_ATTEMPTS <= length _)%nat); cbn [fst snd];
      (f_equal; apply IH; now rewrite !lookup_insert_eq).
  - rewrite !(bool_decide_eq_false_2 _ Hne), andb_false_r. cbn [app].
    apply IH. rewrite checkRateLimit_eq. cbv zeta.
    destruct (decide (MAX_ATTEMPTS <= length _)%nat); cbn [snd];
      now rewrite lookup_insert_ne.
Qed.

(** X5.  The answers an identity gets depend on its own calls only: in a
    run of calls for any identities, the calls allowed for [email] are
    those allowed in the run of the calls for [email] alone. *)
Theorem identities_do_not_interfere email calls :
  admitted email calls ∅ = admitted email (callsFor email calls) ∅.
Proof. now apply admitted_callsFor. Qed.



Lemma reachable_stateAfter calls : forall st,
  reachable st -> reachable (stateAfter calls st).
Proof.
  induction calls as [| [who now] later IH]; intros st Hst; [exact Hst |].
  cbn [stateAfter]. apply IH. now constructor.
Qed.

Lemma dom_stateAfter calls : forall st : gmap string (list Z),
  dom (stateAfter calls st) = list_to_set (map fst calls) ∪ dom st.
Proof.
  induction calls as [| [who now] later IH]; intros st.
  - cbn. set_solver.
  - cbn [stateAfter map fst list_to_set]. rewrite IH, checkRateLimit_eq.
    cbv zeta. destruct (decide _); cbn [snd]; rewrite dom_insert_L; set_solver.
Qed.

(** X7.  After any run of calls from the empty map, the map holds a record
    for exactly the identities that were ever checked (none is ever
    removed, allowed or not), and no record holds more than five
    timestamps. *)
Theorem every_identity_keeps_a_short_record calls :
  dom (stateAfter calls ∅) = list_to_set (map fst calls)
  /\ forall email record,
       stateAfter calls ∅ !! email = Some record -> (length record <= 5)%nat.
Proof.
  split.
  - rewrite dom_stateAfter. set_solver.
  - intros email record. apply reachable_bounded, reachable_stateAfter.
    constructor.
Qed.

End RateLimiterFacts.

(** ** The one-time code *)

Module TotpFacts.

Import JSNumber Totp.
Local Open Scope Z_scope.

(** *** Bytes and 32-bit operators *)

Lemma byteZ_range b : 0 <= byteZ b < 256.
Proof. unfold byteZ. pose proof (Byte.to_N_bounded b). lia. Qed.

Lemma digestAt_range digest i : 0 <= digestAt digest i < 256.
Proof.
  unfold digestAt. destruct (digest !! Z.to_nat i); [apply byteZ_range | lia].
Qed.

Lemma toInt32_small z : 0 <= z < 2 ^ 31 -> toInt32 z = z.
Proof.
  intros Hz. unfold toInt32. rewrite Z.mod_small by lia.
  destruct (z >=? 2 ^ 31) eqn:Hge; lia.
Qed.

Lemma and32_mask a k :
  0 <= a < 256 -> 0 <= k <= 8 ->
  and32 a (Z.ones k) = a mod 2 ^ k.
Proof.
  intros Ha Hk. unfold and32.
  assert (Hones : 0 <= Z.ones k < 2 ^ 31).
  { rewrite Z.ones_equiv.
    pose proof (Z.pow_le_mono_r 2 k 8 ltac:(lia) ltac:(lia)).
    pose proof (Z.pow_pos_nonneg 2 k ltac:(lia) ltac:(lia)). lia. }
  rewrite (toInt32_small a), (toInt32_small (Z.ones k)) by lia.
  rewrite Z.land_ones by lia.
  pose proof (Z.mod_pos_bound a (2 ^ k) ltac:(lia)).
  apply toInt32_small. pose proof (Z.mod_le a (2 ^ k) ltac:(lia) ltac:(lia)).
  lia.
Qed.

Lemma shl32_small a k :
  0 <= k < 32 -> 0 <= a -> a * 2 ^ k < 2 ^ 31 -> shl32 a k = a * 2 ^ k.
Proof.
  intros Hk Ha Hlt. unfold shl32. rewrite (Z.mod_small k 32) by lia.
  assert (a <= a * 2 ^ k) by nia.
  rewrite (toInt32_small a) by lia. apply toInt32_small. nia.
Qed.

Lemma lor_disjoint hi lo k :
  0 <= k -> 0 <= lo < 2 ^ k -> Z.lor (hi * 2 ^ k) lo = hi * 2 ^ k + lo.
Proof.
  intros Hk Hlo.
  assert (Hand : Z.land (hi * 2 ^ k) lo = 0).
  { apply Z.bits_inj'. intros n Hn. rewrite Z.land_spec, Z.bits_0.
    destruct (Z.lt_ge_cases n k) as [Hlt | Hge].
    - now rewrite Z.mul_pow2_bits_low.
    - rewrite <- (Z.mod_small lo (2 ^ k)) by lia.
      rewrite Z.mod_pow2_bits_high by lia. apply andb_false_r. }
  rewrite Z.add_nocarry_lxor by exact Hand. symmetry. now apply Z.lxor_lor.
Qed.

Lemma or32_disjoint hi lo k :
  0 <= k -> 0 <= lo < 2 ^ k -> 0 <= hi -> hi * 2 ^ k + lo < 2 ^ 31 ->
  or32 (hi * 2 ^ k) lo = hi * 2 ^ k + lo.
Proof.
  intros Hk Hlo Hhi Hlt. unfold or32.
  assert (0 <= hi * 2 ^ k) by nia.
  rewrite (toInt32_small (hi * 2 ^ k)), (toInt32_small lo) by lia.
  rewrite lor_disjoint by lia. apply toInt32_small. lia.
Qed.

(** The masked, shifted and or-ed digest bytes are the big-endian word
    without its top bit. *)
Lemma truncate_word a b c d :
  0 <= a < 256 -> 0 <= b < 256 -> 0 <= c < 256 -> 0 <= d < 256 ->
  or32 (or32 (or32 (shl32 (and32 a 127) 24) (shl32 (and32 b 255) 16))
              (shl32 (and32 c 255) 8))
       (and32 d 255)
  = (a * 2 ^ 24 + b * 2 ^ 16 + c * 2 ^ 8 + d) mod 2 ^ 31.
Proof.
  intros Ha Hb Hc Hd.
  change 127 with (Z.ones 7). change 255 with (Z.ones 8).
  rewrite !and32_mask by lia.
  rewrite (Z.mod_small b), (Z.mod_small c), (Z.mod_small d) by lia.
  pose proof (Z.mod_pos_bound a (2 ^ 7) ltac:(lia)) as Hr.
  pose proof (Z.div_mod a (2 ^ 7) ltac:(lia)) as Hq.
  set (r := a mod 2 ^ 7) in *. set (q := a / 2 ^ 7) in *.
  rewrite !shl32_small by lia.
  rewrite (or32_disjoint r (b * 2 ^ 16) 24) by lia.
  replace (r * 2 ^ 24 + b * 2 ^ 16) with ((r * 2 ^ 8 + b) * 2 ^ 16) by ring.
  rewrite (or32_disjoint (r * 2 ^ 8 + b) (c * 2 ^ 8) 16) by lia.
  replace ((r * 2 ^ 8 + b) * 2 ^ 16 + c * 2 ^ 8)
    with ((r * 2 ^ 16 + b * 2 ^ 8 + c) * 2 ^ 8) by ring.
  rewrite (or32_disjoint (r * 2 ^ 16 + b * 2 ^ 8 + c) d 8) by lia.
  apply (Z.mod_unique _ _ q); lia.
Qed.

(** *** Decimal text *)

Lemma fixedDigits_zero k : fixedDigits k 0 = repeat "0"%char k.
Proof.
  induction k as [| k IH]; [reflexivity |].
  cbn [fixedDigits]. change (0 / 10) with 0. rewrite IH.
  change [digitChar (0 mod 10)] with (repeat "0"%char 1).
  rewrite <- repeat_app. f_equal. lia.
Qed.

Lemma pow10_succ k : 10 ^ Z.of_nat (S k) = 10 * 10 ^ Z.of_nat k.
Proof. rewrite Nat2Z.inj_succ, Z.pow_succ_r by lia. reflexivity. Qed.

(** Left-padding the decimal text with zeros gives the fixed-width
    digits. *)
Lemma pad_decimal fuel : forall k n,
  (1 <= k)%nat ->
  0 <= n < 10 ^ Z.of_nat k -> n < 10 ^ Z.of_nat fuel ->
  repeat "0"%char (k - length (decimalFuel fuel n)) ++ decimalFuel fuel n
  = fixedDigits k n.
Proof.
  induction fuel as [| fuel IH]; intros k n Hpos Hk Hfuel.
  - change (10 ^ Z.of_nat 0) with 1 in Hfuel.
    assert (n = 0) as -> by lia. cbn [decimalFuel length].
    rewrite Nat.sub_0_r, app_nil_r. symmetry. apply fixedDigits_zero.
  - destruct k as [| k]; [lia |].
    rewrite pow10_succ in Hk, Hfuel. cbn [decimalFuel fixedDigits].
    destruct (n <? 10) eqn:Hsmall.
    + cbn [length]. rewrite Z.div_small, Z.mod_small, fixedDigits_zero by lia.
      f_equal. f_equal. lia.
    + rewrite length_app, app_assoc. cbn [length]. f_equal.
      replace (S k - (length (decimalFuel fuel (n / 10)) + 1))%nat
        with (k - length (decimalFuel fuel (n / 10)))%nat by lia.
      apply IH.
      * destruct k as [| k]; [| lia].
        change (10 ^ Z.of_nat 0) with 1 in Hk. lia.
      * split; [apply Z.div_pos; lia |].
        apply Z.div_lt_upper_bound; lia.
      * apply Z.div_lt_upper_bound; lia.
Qed.

Lemma toString_fuel n :
  0 <= n -> n < 10 ^ Z.of_nat (S (Z.to_nat (Z.log2 n))).
Proof.
  intros Hn. pose proof (Z.log2_nonneg n) as Hlog.
  rewrite Nat2Z.inj_succ, Z2Nat.id by lia.
  assert (Hpow : 2 ^ Z.succ (Z.log2 n) <= 10 ^ Z.succ (Z.log2 n))
    by (apply Z.pow_le_mono_l; lia).
  destruct (Z.eq_dec n 0) as [-> | Hpos]; [cbn; lia |].
  pose proof (Z.log2_spec n ltac:(lia)). lia.
Qed.

Lemma length_string_of_list l :
  String.length (string_of_list_ascii l) = length l.
Proof. induction l as [| c l IH]; cbn; congruence. Qed.

Lemma append_string_of_list l1 l2 :
  (string_of_list_ascii l1 +:+ string_of_list_ascii l2)%string
  = string_of_list_ascii (l1 ++ l2).
Proof.
  induction l1 as [| c l1 IH]; [reflexivity |].
  cbn [string_of_list_ascii app]. rewrite <- IH. reflexivity.
Qed.

(** [String(otp).padStart(6, "0")] is the six-digit text. *)
Lemma padStart_six n :
  0 <= n < 1000000 ->
  padStart 6 "0" (toStringZ n) = string_of_list_ascii (fixedDigits 6 n).
Proof.
  intros Hn. unfold padStart, toStringZ.
  rewrite length_string_of_list, append_string_of_list. f_equal.
  apply pad_decimal; [lia | exact Hn | apply toString_fuel; lia].
Qed.

Lemma sixDigits_fixed n :
  0 <= n -> sixDigits n = string_of_list_ascii (fixedDigits 6 n).
Proof.
  intros Hn. unfold sixDigits. f_equal. cbn [fixedDigits map app].
  rewrite !Z.div_div by lia. rewrite Z.div_1_r. reflexivity.
Qed.

Lemma isDigit_digitChar d : 0 <= d < 10 -> isDigit (digitChar d) = true.
Proof.
  intros Hd.
  assert (Hcases : d = 0 \/ d = 1 \/ d = 2 \/ d = 3 \/ d = 4 \/ d = 5
                   \/ d = 6 \/ d = 7 \/ d = 8 \/ d = 9) by lia.
  repeat destruct Hcases as [-> | Hcases]; try subst d; reflexivity.
Qed.

Lemma fixedDigits_format k : forall n,
  length (fixedDigits k n) = k
  /\ forallb isDigit (fixedDigits k n) = true.
Proof.
  induction k as [| k IH]; intros n; cbn [fixedDigits]; [auto |].
  destruct (IH (n / 10)) as [Hlen Hall].
  rewrite length_app, forallb_app, Hlen, Hall. cbn.
  rewrite isDigit_digitChar by (apply Z.mod_pos_bound; lia).
  split; [lia | reflexivity].
Qed.

(** *** The code *)

Lemma zero_buffer :
  writeUInt32BE (repeat x00 8) 0 0 = Some (repeat x00 8).
Proof. reflexivity. Qed.

(** The two 32-bit writes lay the counter out as eight big-endian bytes. *)
Lemma counter_buffer c :
  0 <= c < 2 ^ 32 ->
  writeUInt32BE (repeat x00 8) c 4 = Some (bigEndian8 c).
Proof.
  intros Hc. unfold writeUInt32BE.
  replace ((0 <=? c) && (c <=? 4294967295)) with true
    by (symmetry; apply andb_true_intro; split; lia).
  unfold bigEndian8. cbn [map repeat Nat.add insert list_insert].
  rewrite (Z.div_small c (256 ^ 7)), (Z.div_small c (256 ^ 6)),
    (Z.div_small c (256 ^ 5)), (Z.div_small c (256 ^ 4)) by lia.
  rewrite Z.div_1_r. reflexivity.
Qed.

Lemma counter_out_of_range c :
  ~ 0 <= c < 2 ^ 32 -> writeUInt32BE (repeat x00 8) c 4 = None.
Proof.
  intros Hc. unfold writeUInt32BE.
  destruct ((0 <=? c) && (c <=? 4294967295)) eqn:Hin; [| reflexivity].
  apply andb_prop in Hin. lia.
Qed.

Lemma truncate_digest digest :
  length digest = 20%nat ->
  let offset := and32 (digestAt digest 19) 15 in
  or32 (or32 (or32
    (shl32 (and32 (digestAt digest offset) 127) 24)
    (shl32 (and32 (digestAt digest (offset + 1)) 255) 16))
    (shl32 (and32 (digestAt digest (offset + 2)) 255) 8))
    (and32 (digestAt digest (offset + 3)) 255)
  = dynamicTruncate digest.
Proof.
  intros Hlen offset. unfold dynamicTruncate. rewrite Hlen.
  change (Z.of_nat 20 - 1) with 19.
  assert (Hoff : offset = digestAt digest 19 mod 16).
  { subst offset. change 15 with (Z.ones 4).
    apply and32_mask; [apply digestAt_range | lia]. }
  rewrite <- Hoff. apply truncate_word; apply digestAt_range.
Qed.

Lemma dynamicTruncate_range digest : 0 <= dynamicTruncate digest < 2 ^ 31.
Proof. unfold dynamicTruncate. apply Z.mod_pos_bound. lia. Qed.

(** C4, as amended.  For a digest function of 20 bytes, a stored text that
    decodes to [secret], and a clock reading whose counter
    [floor(floor(ms / 1000) / 30)] is an unsigned 32-bit integer,
    [generateTOTP] returns the code the spec describes (counter as eight
    big-endian bytes, HMAC keyed by the secret, dynamic truncation, modulo
    one million, six digits), which is six ASCII digits; at any other
    clock reading it throws; and the value 42 is printed "000042". *)
Theorem generateTOTP_is_spec_code hmac decode base32Secret secret nowMs :
  (forall key message, length (hmac key message) = 20%nat) ->
  decode base32Secret = Some secret ->
  let counter := nowMs / 1000 / 30 in
  (0 <= counter < 2 ^ 32 ->
   generateTOTP hmac decode base32Secret nowMs
   = Some (specGenerate hmac secret (nowMs / 1000))
   /\ String.length (specGenerate hmac secret (nowMs / 1000)) = 6%nat
   /\ forallb isDigit
        (list_ascii_of_string (specGenerate hmac secret (nowMs / 1000)))
      = true)
  /\ (~ 0 <= counter < 2 ^ 32 ->
      generateTOTP hmac decode base32Secret nowMs = None)
  /\ padStart 6 "0" (toStringZ 42) = "000042"%string.
Proof.
  intros Hlen Hdecode counter. unfold generateTOTP. rewrite Hdecode.
  split; [| split; [| reflexivity]].
  - intros Hc. unfold totpOfSecret, specGenerate. fold counter.
    rewrite zero_buffer, (counter_buffer counter Hc).
    set (digest := hmac secret (bigEndian8 counter)).
    rewrite (truncate_digest digest (Hlen _ _)).
    pose proof (dynamicTruncate_range digest) as Hrange.
    rewrite Z.rem_mod_nonneg by lia.
    pose proof (Z.mod_pos_bound (dynamicTruncate digest) 1000000 ltac:(lia))
      as Hotp.
    rewrite padStart_six, sixDigits_fixed by lia.
    rewrite length_string_of_list, list_ascii_of_string_of_list_ascii.
    destruct (fixedDigits_format 6 (dynamicTruncate digest mod 1000000)).
    auto.
  - intros Hc. unfold totpOfSecret. fold counter.
    now rewrite zero_buffer, (counter_out_of_range counter Hc).
Qed.

Lemma standInDigest_length key message :
  length (standInDigest key message) = 20%nat.
Proof.
  unfold standInDigest. rewrite length_take, !length_app, repeat_length. lia.
Qed.

Lemma generateTOTP_is_spec_code_witness :
  Base32.decode "GEZDG" = Some [x31; x32; x33]
  /\ generateTOTP standInDigest Base32.decode "GEZDG" 59000
     = Some (specGenerate standInDigest [x31; x32; x33] 59).
Proof.
  assert (Hdecode : Base32.decode "GEZDG" = Some [x31; x32; x33])
    by (vm_compute; reflexivity).
  split; [exact Hdecode |].
  apply (proj1 (generateTOTP_is_spec_code standInDigest Base32.decode
                  "GEZDG"%string [x31; x32; x33] 59000
                  standInDigest_length Hdecode)).
  vm_compute. split; [discriminate | reflexivity].
Defined.

(** C4 as stated fails: at the clock reading 2^32 * 30000 ms (the year
    6053) the counter is 2^32, the 32-bit write throws, and no code is
    computed for a secret that decodes. *)
Lemma generateTOTP_throws_past_32_bits :
  Base32.decode "GEZDG" = Some [x31; x32; x33]
  /\ (128849018880000 / 1000 / 30 = 2 ^ 32)%Z
  /\ generateTOTP standInDigest Base32.decode "GEZDG" 128849018880000 = None.
Proof. repeat split; vm_compute; reflexivity. Qed.

End TotpFacts.

(** ** The secret codec *)

Module CodecFacts.

Import Base32.



Lemma length_quintet_bits qs :
  length (flat_map quintetBits qs) = (5 * length qs)%nat.
Proof.
  induction qs as [| [[[[b4 b3] b2] b1] b0] qs IH]; [reflexivity |].
  cbn [flat_map quintetBits app length]. rewrite IH. lia.
Qed.

Lemma length_bitsOfBytes bs : length (bitsOfBytes bs) = (8 * length bs)%nat.
Proof.
  induction bs as [| b bs IH]; [reflexivity |].
  unfold bitsOfBytes in *. cbn [flat_map]. rewrite length_app, IH.
  unfold byteBits.
  destruct (Byte.to_bits b) as (b0 & b1 & b2 & b3 & b4 & b5 & b6 & b7).
  cbn. lia.
Qed.





Local Open Scope Z_scope.

















End CodecFacts.

(** ** Verification *)

Module AuthFacts.

Import AuthController.

(** C5, the answers of [verifyCode].  For a user with a stored secret, at a clock reading at which
    [generateTOTP] returns [expected]: [verifyCode] answers 200 exactly
    when the submitted code is [expected]; every other code is answered
    400, in particular the code of any other clock reading (an earlier or
    later time step) unless it is the same text; and the code generated at
    that reading is accepted. *)
Theorem verifyCode_exact_match decode hmac (users : gmap string string)
    nowMs email totpSecret expected :
  users !! email = Some totpSecret ->
  Totp.generateTOTP hmac decode totpSecret nowMs = Some expected ->
  (forall code,
      verifyCode decode hmac users nowMs email code
      = Verify200 "Login successful"
      <-> code = expected)
  /\ (forall code,
        code <> expected ->
        verifyCode decode hmac users nowMs email code
        = Verify400 "Invalid verification code")
  /\ (forall drift other,
        Totp.generateTOTP hmac decode totpSecret (nowMs + drift) = Some other ->
        other <> expected ->
        verifyCode decode hmac users nowMs email other
        = Verify400 "Invalid verification code")
  /\ verifyCode decode hmac users nowMs email expected
     = Verify200 "Login successful".
Proof.
  intros Huser Hgen.
  assert (Hreject : forall code, code <> expected ->
            verifyCode decode hmac users nowMs email code
            = Verify400 "Invalid verification code").
  { intros code Hne. unfold verifyCode. rewrite Huser, Hgen.
    apply String.eqb_neq in Hne. now rewrite Hne. }
  assert (Haccept : verifyCode decode hmac users nowMs email expected
                    = Verify200 "Login successful").
  { unfold verifyCode. rewrite Huser, Hgen. now rewrite String.eqb_refl. }
  repeat split; auto.
  - intros Hok. destruct (String.eqb_spec code expected) as [Heq | Hne];
      [exact Heq |].
    rewrite (Hreject code Hne) in Hok. discriminate.
  - intros ->. exact Haccept.
Qed.

Lemma verifyCode_exact_match_witness :
  let users : gmap string string := {[ "ann@example.com"%string := "GEZDG"%string ]} in
  exists expected,
    Totp.generateTOTP Totp.standInDigest Base32.decode "GEZDG" 59000
    = Some expected
    /\ verifyCode Base32.decode Totp.standInDigest users 59000
         "ann@example.com" expected
       = Verify200 "Login successful".
Proof.
  intros users.
  destruct (Totp.generateTOTP Totp.standInDigest Base32.decode "GEZDG" 59000)
    as [expected |] eqn:Hgen; [| vm_compute in Hgen; discriminate].
  exists expected. split; [reflexivity |].
  apply (verifyCode_exact_match Base32.decode Totp.standInDigest users 59000
           "ann@example.com"%string "GEZDG"%string expected);
    [apply lookup_singleton_eq | exact Hgen].
Defined.

End AuthFacts.

(** ** The authorization header and the client's session *)

Module TokenFacts.

Import JSString VerifyToken Session.

Lemma append_nil_l (b : string) : EmptyString +:+ b = b.
Proof. reflexivity. Qed.

Lemma append_String c (a b : string) : String c a +:+ b = String c (a +:+ b).
Proof. reflexivity. Qed.

Lemma lacks_app c a b : lacks c (a +:+ b) = lacks c a && lacks c b.
Proof.
  induction a as [| x a IH]; [reflexivity |].
  rewrite append_String. cbn [lacks]. rewrite IH. now rewrite andb_assoc.
Qed.

Lemma lacks_behind c sep pieces :
  lacks c (behind sep pieces)
  = forallb (fun piece => negb (Ascii.eqb sep c) && lacks c piece) pieces.
Proof.
  induction pieces as [| piece rest IH]; [reflexivity |].
  cbn [behind lacks forallb]. rewrite lacks_app, IH. now rewrite andb_assoc.
Qed.

(** A string is its pieces with the separators back in place, and no
    piece holds the separator. *)
Lemma splitPieces_inv sep s : forall piece pieces,
  splitPieces sep s = (piece, pieces) ->
  s = piece +:+ behind sep pieces
  /\ lacks sep piece = true
  /\ Forall (fun p => lacks sep p = true) pieces.
Proof.
  induction s as [| c rest IH]; intros piece pieces; cbn [splitPieces].
  - intros H; inversion H; subst. repeat split. constructor.
  - destruct (splitPieces sep rest) as [p ps].
    destruct (IH p ps eq_refl) as (Hrest & Hp & Hps).
    destruct (Ascii.eqb c sep) eqn:Hc; intros H; inversion H; subst.
    + apply Ascii.eqb_eq in Hc. subst c. repeat split. now constructor.
    + repeat split; [| exact Hps]. cbn [lacks]. now rewrite Hc, Hp.
Qed.

Lemma splitPieces_lacks sep s :
  lacks sep s = true -> splitPieces sep s = (s, []).
Proof.
  induction s as [| c rest IH]; [reflexivity |].
  cbn [lacks splitPieces]. intros H. apply andb_prop in H as [Hc Hrest].
  rewrite (IH Hrest). apply negb_true_iff in Hc. now rewrite Hc.
Qed.

Lemma split_lacks sep s : lacks sep s = true -> split sep s = [s].
Proof. intros H. unfold split. now rewrite splitPieces_lacks. Qed.

Lemma split_app sep a b :
  lacks sep a = true -> split sep (a +:+ String sep b) = a :: split sep b.
Proof.
  unfold split. induction a as [| c a IH]; intros Ha.
  - rewrite append_nil_l. cbn [splitPieces].
    destruct (splitPieces sep b) as [p ps]. now rewrite Ascii.eqb_refl.
  - cbn [lacks] in Ha. apply andb_prop in Ha as [Hc Ha].
    apply negb_true_iff in Hc. specialize (IH Ha).
    rewrite append_String. cbn [splitPieces].
    destruct (splitPieces sep (a +:+ String sep b)) as [p ps].
    destruct (splitPieces sep b) as [q qs]. rewrite Hc.
    inversion IH; subst. reflexivity.
Qed.

Lemma truthy_not_empty s : truthy s = true <-> s <> EmptyString.
Proof. destruct s; cbn; split; congruence. Qed.

Lemma append_nil_r (a : string) : a +:+ EmptyString = a.
Proof.
  induction a as [| c a IH]; [reflexivity |]. now rewrite append_String, IH.
Qed.

Lemma behind_shape sep pieces :
  behind sep pieces = EmptyString
  \/ exists rest, behind sep pieces = String sep rest.
Proof. destruct pieces; cbn [behind]; eauto. Qed.

(** A header of the expected shape is let through with the second piece
    as the user. *)
Lemma bearer_accepted token email tail :
  lacks " " (token +:+ "|" +:+ email +:+ tail) = true ->
  lacks "|" token = true ->
  lacks "|" email = true ->
  email <> EmptyString ->
  tail = EmptyString \/ (exists rest, tail = String "|" rest) ->
  verifyToken (Some ("Bearer " +:+ token +:+ "|" +:+ email +:+ tail))
  = Next email.
Proof.
  intros Hspaces Htoken Hemail Hnonempty Htail.
  unfold verifyToken. cbn [truthy String.append negb].
  change ("Bearer " +:+ token +:+ "|" +:+ email +:+ tail)
    with ("Bearer" +:+ String " " (token +:+ "|" +:+ email +:+ tail)).
  rewrite split_app by reflexivity. rewrite (split_lacks " " _ Hspaces).
  cbn [String.eqb Ascii.eqb Bool.eqb negb].
  change (token +:+ "|" +:+ email +:+ tail)
    with (token +:+ String "|" (email +:+ tail)).
  rewrite (split_app "|" _ _ Htoken).
  apply truthy_not_empty in Hnonempty.
  destruct Htail as [-> | [rest ->]].
  - rewrite append_nil_r, (split_lacks "|" _ Hemail). now rewrite Hnonempty.
  - rewrite (split_app "|" _ _ Hemail). unfold split.
    destruct (splitPieces "|" rest). now rewrite Hnonempty.
Qed.

(** X8.  The headers [verifyToken] lets through, and the user it sets for
    them: the word [Bearer], one space, and a second word without spaces
    whose pieces between [|] characters number at least two, the second
    piece not empty; the user is that second piece.  The first piece (the
    token) is not looked at, and what follows a second [|] is ignored. *)
Theorem verifyToken_accepts_exactly authorization email :
  verifyToken authorization = Next email
  <-> exists token tail,
        authorization
        = Some ("Bearer " +:+ token +:+ "|" +:+ email +:+ tail)
        /\ lacks " " (token +:+ "|" +:+ email +:+ tail) = true
        /\ lacks "|" token = true
        /\ lacks "|" email = true
        /\ email <> EmptyString
        /\ (tail = EmptyString \/ exists rest, tail = String "|" rest).
Proof.
  split.
  - unfold verifyToken. destruct authorization as [authHeader |];
      [| discriminate].
    destruct (truthy authHeader); cbn [negb]; [| discriminate].
    unfold split at 1.
    destruct (splitPieces " " authHeader) as [scheme pieces] eqn:Hwords.
    destruct pieces as [| credentials [| ? ?]]; try discriminate.
    destruct (String.eqb scheme "Bearer") eqn:Hscheme; cbn [negb];
      [| discriminate].
    apply String.eqb_eq in Hscheme. subst scheme.
    destruct (splitPieces_inv _ _ _ _ Hwords) as (Hheader & _ & Hcred).
    apply Forall_cons in Hcred as [Hspaces _].
    unfold split.
    destruct (splitPieces "|" credentials) as [token parts] eqn:Hparts.
    destruct parts as [| second more]; [discriminate |].
    destruct (truthy second) eqn:Hsecond; cbn [negb]; [| discriminate].
    intros H; inversion H; subst second. clear H.
    destruct (splitPieces_inv _ _ _ _ Hparts) as (Hcredentials & Htoken & Hrest).
    apply Forall_cons in Hrest as [Hemail _].
    cbn [behind] in Hcredentials, Hheader.
    rewrite append_nil_r in Hheader.
    exists token, (behind "|" more). repeat split.
    + f_equal. rewrite Hheader at 1. rewrite Hcredentials at 1. reflexivity.
    + rewrite Hcredentials in Hspaces. exact Hspaces.
    + exact Htoken.
    + exact Hemail.
    + now apply truthy_not_empty.
    + apply behind_shape.
  - intros (token & tail & -> & Hspaces & Htoken & Hemail & Hnonempty & Htail).
    now apply bearer_accepted.
Qed.

Local Ltac lookups :=
  repeat (rewrite lookup_insert_eq || rewrite lookup_delete_eq
          || (rewrite lookup_insert_ne by discriminate)
          || (rewrite lookup_delete_ne by discriminate)).

(** The session a login followed by a successful verification leaves in
    the browser. *)
Lemma session_after_verify email code (localStorage : storage) :
  email <> EmptyString ->
  let pending := onLoginSuccess email code localStorage in
  pendingEmail pending = email
  /\ getItem "authToken" (onVerifySuccess email pending) = Some "VALID"
  /\ getItem "authEmail" (onVerifySuccess email pending) = Some email
  /\ getItem "pendingEmail" (onVerifySuccess email pending) = None
  /\ getItem "pendingCode" (onVerifySuccess email pending) = None.
Proof.
  intros Hnonempty pending.
  unfold pending, pendingEmail, onVerifySuccess, onLoginSuccess, setSession,
    TOKEN_KEY, EMAIL_KEY, getItem, setItem, removeItem.
  apply truthy_not_empty in Hnonempty.
  repeat split; lookups; try reflexivity. cbv beta iota. now rewrite Hnonempty.
Qed.

(** X9.  After a login with [email] and a successful verification, the
    client is logged in ([AuthGuard] lets it in, [NoAuthGuard] sends it to
    /investment), the pending values are gone, and the header that
    [GoalService] builds is let through by [verifyToken]; the user the
    goal routes then act for is the part of the e-mail before its first
    [|] (the whole e-mail when it holds none), the e-mail holding no
    space and that part not being empty. *)
Theorem session_identifies_the_user email code (localStorage : storage) :
  lacks " " email = true ->
  hd EmptyString (split "|" email) <> EmptyString ->
  let pending := onLoginSuccess email code localStorage in
  let session := onVerifySuccess (pendingEmail pending) pending in
  isLoggedIn session = true
  /\ authGuard session = (true, None)
  /\ noAuthGuard session = (false, Some "/investment")
  /\ getEmail session = Some email
  /\ getItem "pendingEmail" session = None
  /\ getItem "pendingCode" session = None
  /\ verifyToken (Some (getAuthHeaders session))
     = Next (hd EmptyString (split "|" email))
  /\ (lacks "|" email = true ->
      verifyToken (Some (getAuthHeaders session)) = Next email).
Proof.
  intros Hspaces Hfirst pending session.
  assert (Hnonempty : email <> EmptyString).
  { intros ->. apply Hfirst. reflexivity. }
  destruct (session_after_verify email code localStorage Hnonempty)
    as (Hpending & Htoken & Hemail & Hgone1 & Hgone2).
  fold pending in Hpending, Htoken, Hemail, Hgone1, Hgone2.
  unfold session. rewrite Hpending.
  assert (Hlogged : isLoggedIn (onVerifySuccess email pending) = true).
  { unfold isLoggedIn, TOKEN_KEY. now rewrite Htoken. }
  assert (Hheader :
            verifyToken (Some (getAuthHeaders (onVerifySuccess email pending)))
            = Next (hd EmptyString (split "|" email))).
  { unfold getAuthHeaders. rewrite Htoken, Hemail. cbn [interpolate default].
    revert Hfirst. unfold split.
    destruct (splitPieces "|" email) as [first more] eqn:Hsplit.
    cbn [hd]. intros Hfirst.
    destruct (splitPieces_inv _ _ _ _ Hsplit) as (Hshape & Hlacks & _).
    rewrite Hshape at 1.
    apply bearer_accepted; try assumption; try reflexivity.
    - rewrite <- Hshape. cbn [String.append lacks Ascii.eqb Bool.eqb negb andb].
      exact Hspaces.
    - apply behind_shape. }
  repeat split; try assumption.
  - unfold authGuard. now rewrite Hlogged.
  - unfold noAuthGuard. now rewrite Hlogged.
  - intros Hpipe. rewrite Hheader. unfold split.
    now rewrite (splitPieces_lacks "|" email Hpipe).
Qed.

Lemma session_identifies_the_user_witness :
  verifyToken
    (Some (getAuthHeaders
             (onVerifySuccess
                (pendingEmail (onLoginSuccess "ann@example.com" "123456" ∅))
                (onLoginSuccess "ann@example.com" "123456" ∅))))
  = Next "ann@example.com"
  /\ verifyToken
       (Some (getAuthHeaders
                (onVerifySuccess
                   (pendingEmail (onLoginSuccess "ann|x@example.com" "123456" ∅))
                   (onLoginSuccess "ann|x@example.com" "123456" ∅))))
     = Next "ann".
Proof.
  split.
  - apply (session_identifies_the_user "ann@example.com" "123456" ∅);
      [reflexivity | discriminate | reflexivity].
  - apply (session_identifies_the_user "ann|x@example.com" "123456" ∅);
      [reflexivity | discriminate].
Defined.

(** X10.  A client without a session is let through as well: after
    [logout], [AuthGuard] turns the client away, but the header
    [GoalService] builds is [Bearer null|null], and [verifyToken] hands
    the request on for the user [null]. *)
Theorem logged_out_client_is_user_null (localStorage : storage) :
  authGuard (logout localStorage) = (false, Some "/login")
  /\ getAuthHeaders (logout localStorage) = "Bearer null|null"
  /\ verifyToken (Some (getAuthHeaders (logout localStorage))) = Next "null".
Proof.
  assert (Htoken : getItem "authToken" (logout localStorage) = None).
  { unfold logout, clearSession, removeItem, getItem, TOKEN_KEY, EMAIL_KEY.
    now lookups. }
  assert (Hemail : getItem "authEmail" (logout localStorage) = None).
  { unfold logout, clearSession, removeItem, getItem, TOKEN_KEY, EMAIL_KEY.
    now lookups. }
  unfold authGuard, isLoggedIn, getAuthHeaders, TOKEN_KEY.
  rewrite Htoken, Hemail. repeat split.
Qed.

End TokenFacts.

(** ** Registration, login and verification together *)

Module AuthFlowFacts.

Import RateLimiter Totp AuthController AuthHandlers.
Local Open Scope Z_scope.

(** The code depends on the clock reading through the 30-second step
    only. *)
Lemma generateTOTP_same_step hmac decode base32Secret t1 t2 :
  t1 / 1000 / 30 = t2 / 1000 / 30 ->
  generateTOTP hmac decode base32Secret t1
  = generateTOTP hmac decode base32Secret t2.
Proof.
  intros Hstep. unfold generateTOTP, totpOfSecret. cbv zeta.
  now rewrite Hstep.
Qed.

(** A secret that decodes has a code at every reading whose counter is an
    unsigned 32-bit integer. *)
Lemma generateTOTP_in_range hmac decode base32Secret secret nowMs :
  decode base32Secret = Some secret ->
  0 <= nowMs / 1000 / 30 < 2 ^ 32 ->
  exists code, generateTOTP hmac decode base32Secret nowMs = Some code.
Proof.
  intros Hdecode Hrange. unfold generateTOTP, totpOfSecret. rewrite Hdecode.
  cbv zeta. rewrite TotpFacts.zero_buffer, (TotpFacts.counter_buffer _ Hrange).
  eauto.
Qed.

Section Login.

Variable bcryptCompare : string -> string -> bool.
Variable decode : string -> option (list byte).
Variable hmac : list byte -> list byte -> list byte.



End Login.

(** X11.  A code that [loginUser] issues (for an e-mail that the schema
    stores as it is) is accepted by [verifyCode] at every clock reading of
    the same 30-second step as the reading at which it was generated; the
    code is also stored with the user, and the answer names the e-mail of
    the request. *)
Theorem issued_code_verifies_in_its_step bcryptCompare decode hmac
    st users now later email password message address code st1 users1 t :
  keptByTheSchema email = true ->
  loginUser bcryptCompare decode hmac st users now later email password
  = (Login200 message address code, st1, users1) ->
  t / 1000 / 30 = later / 1000 / 30 ->
  verifyCode decode hmac (secretsOf users1) t email code
  = Verify200 "Login successful"
  /\ address = email
  /\ lastIssuedCode <$> users1 !! email = Some (Some code)
  /\ st1 = snd (checkRateLimit email now st).
Proof.
  intros _. unfold loginUser.
  destruct (checkRateLimit email now st) as [allowed st'].
  destruct allowed; cbn [negb]; [| discriminate].
  destruct (users !! email) as [doc |]; [| discriminate].
  destruct (bcryptCompare password (passwordHash doc)); cbn [negb];
    [| discriminate].
  destruct (generateTOTP hmac decode (totpSecret doc) later) as [issued |]
    eqn:Hcode; [| discriminate].
  intros H Hstep. inversion H; subst. clear H.
  repeat split.
  - unfold verifyCode, secretsOf.
    rewrite lookup_fmap, lookup_insert_eq. cbn [fmap option_fmap option_map totpSecret].
    rewrite (generateTOTP_same_step hmac decode _ t later Hstep), Hcode.
    now rewrite String.eqb_refl.
  - now rewrite lookup_insert_eq.
Qed.

Lemma issued_code_verifies_in_its_step_witness :
  exists message address code st1 users1,
    loginUser standInCompare Base32.decode standInDigest ∅
      {[ "ann@example.com"%string := mkUser "$secret" "GEZDG" None ]}
      31000 31200 "ann@example.com" "secret"
    = (Login200 message address code, st1, users1)
    /\ verifyCode Base32.decode standInDigest (secretsOf users1) 59999
         "ann@example.com" code
       = Verify200 "Login successful".
Proof.
  destruct (loginUser standInCompare Base32.decode standInDigest ∅
              {[ "ann@example.com"%string := mkUser "$secret" "GEZDG" None ]}
              31000 31200 "ann@example.com" "secret")
    as [[response st1] users1] eqn:Hlogin.
  assert (Hshape : match response with
                   | Login200 _ _ _ => true
                   | _ => false
                   end = true).
  { replace response
      with (fst (fst (loginUser standInCompare Base32.decode standInDigest ∅
                        {[ "ann@example.com"%string
                           := mkUser "$secret" "GEZDG" None ]}
                        31000 31200 "ann@example.com" "secret")))
      by now rewrite Hlogin.
    vm_compute. reflexivity. }
  destruct response as [message address code | | |]; try discriminate Hshape.
  exists message, address, code, st1, users1. split; [reflexivity |].
  apply (issued_code_verifies_in_its_step _ _ _ _ _ _ _ _ _ _ _ _ _ _ _
           (eq_refl : keptByTheSchema "ann@example.com" = true) Hlogin).
  reflexivity.
Defined.



(** X13.  Registration, login and verification fit together.  For an
    e-mail that the schema stores as it is and that is not registered
    yet, and a codec that gives the stored
    secret back: [registerUser] answers 201; a login with the same
    password that the limiter allows answers 200 with a code; that code is
    accepted by [verifyCode] at every reading of the same 30-second step;
    a login with a password that does not compare is answered 400; and a
    second registration of the e-mail is answered 400 and leaves the
    collection as it is. *)
Theorem registered_user_logs_in_and_verifies bcryptHash bcryptCompare
    encode decode hmac (users : gmap string user) (st : gmap string (list Z))
    salt rawSecret email password now later t :
  keptByTheSchema email = true ->
  users !! email = None ->
  email <> EmptyString ->
  bcryptHash salt password <> EmptyString ->
  totpSecretOf encode rawSecret <> EmptyString ->
  decode (totpSecretOf encode rawSecret) = Some rawSecret ->
  bcryptCompare password (bcryptHash salt password) = true ->
  fst (checkRateLimit email now st) = true ->
  0 <= later / 1000 / 30 < 2 ^ 32 ->
  t / 1000 / 30 = later / 1000 / 30 ->
  exists users1 code users2,
    registerUser bcryptHash encode users salt rawSecret email password
    = (Register201 "User registered successfully", users1)
    /\ loginUser bcryptCompare decode hmac st users1 now later email password
       = (Login200 "Verification code sent" email code,
          snd (checkRateLimit email now st), users2)
    /\ verifyCode decode hmac (secretsOf users2) t email code
       = Verify200 "Login successful"
    /\ (forall wrong,
          bcryptCompare wrong (bcryptHash salt password) = false ->
          loginUser bcryptCompare decode hmac st users1 now later email wrong
          = (Login400 "Invalid credentials",
             snd (checkRateLimit email now st), users1))
    /\ (forall salt2 rawSecret2 password2,
          registerUser bcryptHash encode users1 salt2 rawSecret2 email
            password2
          = (Register400 "Email already exists", users1)).
Proof.
  intros _ Hnew Hemail Hhash Hsecret Hcodec Hcompare Hallowed Hrange Hstep.
  apply TokenFacts.truthy_not_empty in Hemail, Hhash, Hsecret.
  set (doc := mkUser (bcryptHash salt password) (totpSecretOf encode rawSecret)
                None).
  destruct (generateTOTP_in_range hmac decode _ _ later Hcodec Hrange)
    as [code Hcode].
  exists (<[email := doc]> users), code,
    (<[email := mkUser (passwordHash doc) (totpSecret doc) (Some code)]>
       (<[email := doc]> users)).
  destruct (checkRateLimit email now st) as [allowed st1] eqn:Hcall.
  cbn [fst snd] in *. subst allowed.
  split; [| split; [| split; [| split]]].
  - unfold registerUser. rewrite Hnew. fold doc. unfold validates.
    cbn [passwordHash totpSecret doc]. now rewrite Hemail, Hhash, Hsecret.
  - unfold loginUser. rewrite Hcall, lookup_insert_eq. cbn [negb].
    cbn [passwordHash totpSecret doc]. rewrite Hcompare. cbn [negb].
    now rewrite Hcode.
  - unfold verifyCode, secretsOf.
    rewrite lookup_fmap, lookup_insert_eq.
    cbn [fmap option_fmap option_map totpSecret doc].
    rewrite (generateTOTP_same_step hmac decode _ t later Hstep), Hcode.
    now rewrite String.eqb_refl.
  - intros wrong Hwrong. unfold loginUser.
    rewrite Hcall, lookup_insert_eq. cbn [negb passwordHash doc].
    now rewrite Hwrong.
  - intros salt2 rawSecret2 password2. unfold registerUser.
    now rewrite lookup_insert_eq.
Qed.

Lemma registered_user_logs_in_and_verifies_witness :
  exists users1 code users2,
    registerUser standInHash Base32.encode ∅ "salt"
      [x31; x32; x33] "ann@example.com" "secret"
    = (Register201 "User registered successfully", users1)
    /\ loginUser standInCompare Base32.decode standInDigest ∅ users1
         31000 31200 "ann@example.com" "secret"
       = (Login200 "Verification code sent" "ann@example.com" code,
          snd (checkRateLimit "ann@example.com" 31000 ∅), users2)
    /\ verifyCode Base32.decode standInDigest (secretsOf users2) 59999
         "ann@example.com" code
       = Verify200 "Login successful".
Proof.
  destruct (registered_user_logs_in_and_verifies standInHash standInCompare
              Base32.encode Base32.decode standInDigest ∅ ∅ "salt"
              [x31; x32; x33] "ann@example.com" "secret" 31000 31200 59999)
    as (users1 & code & users2 & Hregister & Hlogin & Hverify & _).
  - reflexivity.
  - apply lookup_empty.
  - discriminate.
  - discriminate.
  - vm_compute. discriminate.
  - vm_compute. reflexivity.
  - reflexivity.
  - rewrite RateLimiterFacts.call_fresh by apply lookup_empty. reflexivity.
  - vm_compute. split; [discriminate | reflexivity].
  - reflexivity.
  - exists users1, code, users2. auto.
Defined.

End AuthFlowFacts.

(* ===================================================================== *)
(** ** Rounding of binary64 products *)
(* ===================================================================== *)

Module RoundingFacts.
Local Open Scope Z_scope.

Lemma digits2_pos_bounds p :
  2 ^ (Z.pos (digits2_pos p) - 1) <= Z.pos p < 2 ^ Z.pos (digits2_pos p).
Proof.
  induction p as [p IH | p IH |]; cbn [digits2_pos].
  - rewrite Pos2Z.inj_succ. change (Z.pos p~1) with (2 * Z.pos p + 1).
    replace (Z.succ (Z.pos (digits2_pos p)) - 1)
      with (Z.succ (Z.pos (digits2_pos p) - 1)) by lia.
    rewrite !Z.pow_succ_r by lia.
    generalize dependent (2 ^ (Z.pos (digits2_pos p) - 1)).
    generalize (2 ^ Z.pos (digits2_pos p)). intros; lia.
  - rewrite Pos2Z.inj_succ. change (Z.pos p~0) with (2 * Z.pos p).
    replace (Z.succ (Z.pos (digits2_pos p)) - 1)
      with (Z.succ (Z.pos (digits2_pos p) - 1)) by lia.
    rewrite !Z.pow_succ_r by lia.
    generalize dependent (2 ^ (Z.pos (digits2_pos p) - 1)).
    generalize (2 ^ Z.pos (digits2_pos p)). intros; lia.
  - cbn. lia.
Qed.

Lemma digits2_pos_le p k : Z.pos p < 2 ^ k -> Z.pos (digits2_pos p) <= k.
Proof.
  intros Hp. destruct (digits2_pos_bounds p) as [Hlo _].
  destruct (Z_lt_le_dec k (Z.pos (digits2_pos p))) as [Hlt | Hle]; [| exact Hle].
  exfalso. assert (2 ^ k <= 2 ^ (Z.pos (digits2_pos p) - 1)).
  { destruct (Z_lt_le_dec k 0) as [Hneg | Hnn].
    - rewrite (Z.pow_neg_r 2 k Hneg). apply Z.pow_nonneg. lia.
    - apply Z.pow_le_mono_r; lia. }
  lia.
Qed.

Lemma Zdigits2_le z k : 0 <= z < 2 ^ k -> 0 <= k -> Zdigits2 z <= k.
Proof.
  intros [Hz Hlt] Hk. destruct z as [| p | p]; cbn [Zdigits2]; [lia | | lia].
  now apply digits2_pos_le.
Qed.

Lemma shr_1_m r : 0 <= shr_m r -> shr_m (shr_1 r) = shr_m r / 2.
Proof.
  destruct r as [m r s]. cbn [shr_m]. intros Hm.
  destruct m as [| [p | p |] | p]; cbn [shr_1 shr_m]; try lia;
    rewrite <- Z.div2_div; reflexivity.
Qed.

Lemma iter_shr_m p : forall r,
  0 <= shr_m r ->
  shr_m (@SpecFloat.iter_pos shr_record shr_1 p r) = shr_m r / 2 ^ Z.pos p.
Proof.
  assert (Hnn : forall r, 0 <= shr_m r -> 0 <= shr_m (shr_1 r)).
  { intros r Hr. rewrite shr_1_m by exact Hr. apply Z.div_pos; lia. }
  induction p as [p IH | p IH |]; intros r Hr; cbn [SpecFloat.iter_pos].
  - rewrite IH, IH, shr_1_m; try auto.
    + rewrite !Z.div_div by (try apply Z.pow_pos_nonneg; lia).
      change (Z.pos p~1) with (2 * Z.pos p + 1).
      rewrite <- Z.pow_add_r, <- Z.pow_succ_r by lia. f_equal. f_equal. lia.
    + rewrite IH by auto. apply Z.div_pos; [auto | apply Z.pow_pos_nonneg; lia].
  - rewrite IH, IH; try auto.
    + rewrite !Z.div_div by (try apply Z.pow_pos_nonneg; lia).
      change (Z.pos p~0) with (2 * Z.pos p).
      rewrite <- Z.pow_add_r by lia. f_equal. f_equal. lia.
    + rewrite IH by auto. apply Z.div_pos; [auto | apply Z.pow_pos_nonneg; lia].
  - rewrite shr_1_m by exact Hr. reflexivity.
Qed.

Lemma round_nearest_even_bounds q l :
  q <= round_nearest_even q l <= q + 1.
Proof.
  destruct l as [| []]; cbn [round_nearest_even]; try lia.
  destruct (Z.even q); lia.
Qed.

Lemma fexp_eq z : fexp prec emax z = Z.max (z - 53) (-1074).
Proof. reflexivity. Qed.

Lemma shr_nonneg r e n : 0 <= shr_m r -> 0 <= shr_m (fst (shr r e n)).
Proof.
  intros Hr. destruct n as [| p | p]; cbn [shr fst]; try exact Hr.
  rewrite iter_shr_m by exact Hr. apply Z.div_pos; [exact Hr |].
  apply Z.pow_pos_nonneg; lia.
Qed.


Lemma pow2_pos k : 0 < 2 ^ Z.pos k.
Proof. apply Z.pow_pos_nonneg; lia. Qed.

Lemma second_exponent d x :
  (d <= 54 \/ (d <= 107 /\ x <= -95)) -> x <= -42 ->
  x + (Z.max (d + x - 53) (-1074) - x) <= -41 /\ x <= -41.
Proof. lia. Qed.

Lemma mul12_small m e :
  Z.pos (digits2_pos m) <= 53 -> e <= -46 ->
  SFmul prec emax (S754_finite false m e)
    (S754_finite false 6755399441055744 (-49)) = S754_zero false
  \/ exists m' e',
       SFmul prec emax (S754_finite false m e)
         (S754_finite false 6755399441055744 (-49))
       = S754_finite false m' e'
       /\ e' <= -41.
Proof.
  intros Hd He. cbn [SFmul xorb].
  set (M := (m * 6755399441055744)%positive). set (E := e + -49).
  assert (HM : Z.pos M < 2 ^ 106).
  { unfold M. rewrite Pos2Z.inj_mul.
    destruct (digits2_pos_bounds m) as [_ Hm].
    assert (2 ^ Z.pos (digits2_pos m) <= 2 ^ 53)
      by (apply Z.pow_le_mono_r; lia).
    change (2 ^ 106) with (2 ^ 53 * 2 ^ 53).
    generalize dependent (2 ^ Z.pos (digits2_pos m)). intros a Ha Hb.
    nia. }
  assert (HdM : Z.pos (digits2_pos M) <= 106) by now apply digits2_pos_le.
  unfold binary_round_aux, shr_fexp. cbn [shr_record_of_loc Zdigits2].
  rewrite fexp_eq.
  set (dM := Z.pos (digits2_pos M)) in *.
  set (n1 := Z.max (dM + E - 53) (-1074) - E).
  assert (Hn1 : dM - 53 <= n1) by (unfold n1; lia).
  assert (He1 : E + n1 <= -42) by (unfold n1, E; lia).
  set (r0 := {| shr_m := Z.pos M; shr_r := false; shr_s := false |}).
  assert (Hr0 : 0 <= shr_m r0) by (cbn; lia).
  destruct (shr r0 E n1) as [mrs1 e1] eqn:Hshr1.
  assert (Hm1 : 0 <= shr_m mrs1 /\ e1 <= -42
                /\ (shr_m mrs1 < 2 ^ 53 \/ (shr_m mrs1 < 2 ^ 106 /\ e1 <= -95))).
  { destruct n1 as [| p | p] eqn:Hp; cbn [shr] in Hshr1; inversion Hshr1; subst mrs1 e1.
    - cbn [shr_m r0]. unfold E. split; [lia |]. split; [lia |]. right. split; [exact HM | lia].
    - rewrite iter_shr_m by exact Hr0. cbn [shr_m r0].
      pose proof (pow2_pos p) as Hpos.
      split; [apply Z.div_pos; lia |]. split; [lia |]. left.
      apply Z.div_lt_upper_bound; [lia |].
      destruct (digits2_pos_bounds M) as [_ HMd]. fold dM in HMd.
      assert (Hle : 2 ^ dM <= 2 ^ (Z.pos p + 53))
        by (apply Z.pow_le_mono_r; lia).
      rewrite Z.pow_add_r in Hle by lia.
      generalize dependent (2 ^ dM). generalize dependent (2 ^ Z.pos p).
      intros; lia.
    - cbn [shr_m r0]. unfold E. split; [lia |]. split; [lia |]. right. split; [exact HM | lia]. }
  destruct Hm1 as (Hq & He1' & Hsmall).
  cbv beta iota.
  set (m1 := round_nearest_even (shr_m mrs1) (loc_of_shr_record mrs1)).
  pose proof (round_nearest_even_bounds (shr_m mrs1) (loc_of_shr_record mrs1))
    as Hround. fold m1 in Hround.
  rewrite fexp_eq.
  set (n2 := Z.max (Zdigits2 m1 + e1 - 53) (-1074) - e1).
  set (r1 := {| shr_m := m1; shr_r := false; shr_s := false |}).
  assert (Hr1 : 0 <= shr_m r1) by (cbn [r1 shr_m]; clear - Hq Hround; lia).
  pose proof (shr_nonneg r1 e1 n2 Hr1) as Hnn.
  assert (Hdig : Zdigits2 m1 <= 54 \/ (Zdigits2 m1 <= 107 /\ e1 <= -95)).
  { destruct Hsmall as [Hs | [Hs Hlow]].
    - left. apply Zdigits2_le; [| lia].
      change (2 ^ 54) with (2 * 2 ^ 53).
      clear - Hs Hq Hround. generalize dependent (2 ^ 53). intros; lia.
    - right. split; [| exact Hlow]. apply Zdigits2_le; [| lia].
      change (2 ^ 107) with (2 * 2 ^ 106).
      clear - Hs Hq Hround. generalize dependent (2 ^ 106). intros; lia. }
  assert (He2 : snd (shr r1 e1 n2) <= -41).
  { destruct (second_exponent _ _ Hdig He1') as [Hsum Hx]. fold n2 in Hsum.
    clearbody n2. clear - Hsum Hx.
    destruct n2 as [| p | p]; cbn [shr snd]; lia. }
  destruct (shr r1 e1 n2) as [mrs2 e2]. cbn [fst snd] in Hnn, He2.
  cbv beta iota.
  destruct (shr_m mrs2) as [| m2 | m2].
  - left. reflexivity.
  - right. exists m2, e2.
    replace (e2 <=? emax - prec) with true
      by (symmetry; apply Z.leb_le; unfold emax, prec; clear - He2; lia).
    split; [reflexivity | exact He2].
  - exfalso. clear - Hnn. lia.
Qed.

Lemma canonical_digits m e :
  bounded prec emax m e = true -> Z.pos (digits2_pos m) <= 53.
Proof.
  unfold bounded, canonical_mantissa. rewrite fexp_eq. intros H.
  apply andb_prop in H as [H _]. apply Z.eqb_eq in H. lia.
Qed.

Lemma ceilZ_small m e :
  e <= -41 -> Z.pos m < 2 ^ 53 ->
  0 <= InvestmentController.ceilZ m e <= 4096.
Proof.
  intros He Hm. unfold InvestmentController.ceilZ.
  replace (0 <=? e) with false by (symmetry; apply Z.leb_gt; lia).
  assert (Hpow : 2 ^ 41 <= 2 ^ (- e)) by (apply Z.pow_le_mono_r; lia).
  change (2 ^ 53) with (4096 * 2 ^ 41) in Hm.
  generalize dependent (2 ^ (- e)). generalize dependent (2 ^ 41).
  intros a Hm b Hab. assert (0 < a) by lia.
  split.
  - apply Z.div_pos; lia.
  - apply Z.lt_succ_r. apply Z.div_lt_upper_bound; [lia |]. nia.
Qed.

End RoundingFacts.

(* ===================================================================== *)
(** ** The compound-interest projection *)
(* ===================================================================== *)

Module InvestmentFacts.
Import JSNumber InvestmentController NumberFacts RoundingFacts.
Local Open Scope float_scope.

Lemma Prim2SF_twelve : Prim2SF 12 = S754_finite false 6755399441055744 (-49).
Proof. reflexivity. Qed.

Lemma Prim2SF_hundred : Prim2SF 100 = S754_finite false 7036874417766400 (-46).
Proof. reflexivity. Qed.

(** A duration that passes the checks gives a loop that ends, after no
    more than 4096 passes; the number of months is zero or a positive
    finite number. *)
Lemma accepted_years_end years :
  isNaN years = false -> (years <=? 0) = false -> gtb years 100 = false ->
  (exists trips,
      countingTrips (years * 12) = Some trips /\ (trips <= 4096)%nat)
  /\ (Prim2SF (years * 12) = S754_zero false
      \/ exists m e, Prim2SF (years * 12) = S754_finite false m e).
Proof.
  intros Hnan Hpos Hmax. unfold countingTrips.
  pose proof (Prim2SF_valid (years * 12)) as Hvalid.
  pose proof (Prim2SF_valid years) as Hyears.
  rewrite mul_spec in *. unfold SF64mul in *. rewrite Prim2SF_twelve in *.
  revert Hnan Hpos Hmax. rewrite isNaN_class. unfold gtb.
  rewrite leb_spec, ltb_spec, Prim2SF_zero, Prim2SF_hundred.
  destruct (Prim2SF years) as [s | [|] | | [|] m e]; try discriminate;
    try (destruct s; discriminate).
  intros _ _ Hmax.
  assert (He : (e <= -46)%Z).
  { unfold SFltb, SFcompare in Hmax.
    destruct (Z.compare (-46) e) eqn:Hcmp; try discriminate.
    - apply Z.compare_eq in Hcmp. lia.
    - apply Z.compare_gt_iff in Hcmp. lia. }
  cbn [valid_binary] in Hyears. apply canonical_digits in Hyears.
  destruct (mul12_small m e Hyears He) as [Hzero | (m' & e' & Hprod & He')].
  - rewrite Hzero. split; [| now left]. exists 0%nat. split; [reflexivity | lia].
  - rewrite Hprod in *. cbn [valid_binary] in Hvalid.
    apply canonical_digits in Hvalid. split; [| right; eauto].
    destruct (digits2_pos_bounds m') as [_ Hm'].
    assert (Hle : (2 ^ Z.pos (digits2_pos m') <= 2 ^ 53)%Z)
      by (apply Z.pow_le_mono_r; lia).
    assert (Hsmall : (Z.pos m' < 2 ^ 53)%Z).
    { generalize dependent (2 ^ Z.pos (digits2_pos m'))%Z.
      generalize dependent (2 ^ 53)%Z. intros; lia. }
    destruct (ceilZ_small m' e' He' Hsmall) as [Hlo Hhi].
    replace (2 ^ 53 <? ceilZ m' e')%Z with false
      by (symmetry; apply Z.ltb_ge; change (2 ^ 53)%Z with 9007199254740992%Z; lia).
    exists (Z.to_nat (ceilZ m' e')). split; [reflexivity | lia].
Qed.

Lemma geb_zero x : geb x 0 = negb (isNaN x) && negb (x <? 0).
Proof.
  unfold geb. rewrite isNaN_class, leb_spec, ltb_spec, Prim2SF_zero.
  destruct (Prim2SF x) as [[|] | [|] | | [|] ? ?]; reflexivity.
Qed.

Lemma gtb_zero x : gtb x 0 = negb (isNaN x) && negb (x <=? 0).
Proof.
  unfold gtb. rewrite isNaN_class, leb_spec, ltb_spec, Prim2SF_zero.
  destruct (Prim2SF x) as [[|] | [|] | | [|] ? ?]; reflexivity.
Qed.

Lemma geb_hundred x : geb 100 x = negb (isNaN x) && negb (gtb x 100).
Proof.
  unfold geb, gtb. rewrite isNaN_class, leb_spec, ltb_spec, Prim2SF_hundred.
  destruct (Prim2SF x) as [[|] | [|] | | [|] m e]; try reflexivity.
  unfold SFleb, SFltb, SFcompare.
  rewrite (Z.compare_antisym e (-46)).
  destruct (Z.compare e (-46)); cbn [CompOpp negb andb]; try reflexivity.
  pose proof (Pos.compare_cont_antisym 7036874417766400 m Eq) as Hanti.
  cbn [CompOpp] in Hanti. rewrite <- Hanti.
  destruct (Pos.compare_cont Eq 7036874417766400 m); reflexivity.
Qed.

(** The answer to a request within the ranges. *)
Lemma calculate_within ston body :
  withinRanges ston body = true ->
  let initial := Number ston (initialAmount body) in
  let monthly := Number ston (nullish (monthlyDeposit body) (JNum 0)) in
  let rate := Number ston (annualRate body) in
  let durationYears := Number ston (years body) in
  calculateInvestment ston body
  = match countingTrips (durationYears * 12) with
    | None => None
    | Some trips =>
        let total := compound trips monthly (rate / 100 / 12) initial in
        Some (Ok200 (toFixed2 total)
                (toFixed2 (total - (initial + monthly * (durationYears * 12)))))
    end
  /\ geb initial 0 = true
  /\ geb monthly 0 = true
  /\ isNaN durationYears = false
  /\ (durationYears <=? 0) = false
  /\ gtb durationYears 100 = false.
Proof.
  unfold withinRanges, calculateInvestment. intros H.
  repeat (apply andb_prop in H as [H ?]).
  repeat match goal with
         | Hn : negb _ = true |- _ => apply negb_true_iff in Hn; rewrite ?Hn
         end.
  cbn [orb]. cbv zeta.
  set (initial := Number ston (initialAmount body)) in *.
  set (monthly := Number ston (nullish (monthlyDeposit body) (JNum 0))) in *.
  set (rate := Number ston (annualRate body)) in *.
  set (durationYears := Number ston (years body)) in *.
  repeat match goal with
         | Hc : geb _ 0 = true |- _ =>
             let Hn := fresh "Hn" in let Hl := fresh "Hl" in
             pose proof Hc as Hn; rewrite geb_zero in Hn;
             apply andb_prop in Hn as [Hn Hl];
             apply negb_true_iff in Hn, Hl; rewrite ?Hn, ?Hl; revert Hc
         | Hc : gtb _ 0 = true |- _ =>
             let Hn := fresh "Hn" in let Hl := fresh "Hl" in
             pose proof Hc as Hn; rewrite gtb_zero in Hn;
             apply andb_prop in Hn as [Hn Hl];
             apply negb_true_iff in Hn, Hl; rewrite ?Hn, ?Hl; revert Hc
         | Hc : geb 100 _ = true |- _ =>
             let Hn := fresh "Hn" in let Hl := fresh "Hl" in
             pose proof Hc as Hn; rewrite geb_hundred in Hn;
             apply andb_prop in Hn as [Hn Hl];
             apply negb_true_iff in Hn, Hl; rewrite ?Hn, ?Hl; revert Hc
         end.
  intros. cbn [orb]. repeat split; assumption || reflexivity.
Qed.


(** *** Money that is left alone *)

Lemma plain_of_checks x : geb x 0 = true -> isFinite x = true -> plain x.
Proof.
  unfold geb, isFinite, plain. rewrite leb_spec, Prim2SF_zero.
  destruct (Prim2SF x) as [s | s | | [|] m e]; try discriminate; eauto.
Qed.

Lemma Prim2SF_add_zero x :
  plain x ->
  Prim2SF (x + 0)
  = match Prim2SF x with
    | S754_zero _ => S754_zero false
    | other => other
    end.
Proof.
  rewrite add_spec, Prim2SF_zero.
  intros [[s Hx] | (m & e & Hx)]; rewrite Hx; [now destruct s | reflexivity].
Qed.

Lemma plain_add_zero x : plain x -> plain (x + 0).
Proof.
  intros Hx. unfold plain. rewrite (Prim2SF_add_zero x Hx).
  destruct Hx as [[s Hx] | (m & e & Hx)]; rewrite Hx; eauto.
Qed.

Lemma add_zero_twice x : plain x -> x + 0 + 0 = x + 0.
Proof.
  intros Hx. apply Prim2SF_inj.
  rewrite (Prim2SF_add_zero (x + 0) (plain_add_zero x Hx)).
  rewrite (Prim2SF_add_zero x Hx).
  destruct Hx as [[s Hx] | (m & e & Hx)]; now rewrite Hx.
Qed.

Lemma idle_month x : plain x -> x + 0 + (x + 0) * 0 = x + 0.
Proof.
  intros Hx. apply Prim2SF_inj.
  rewrite add_spec, mul_spec, Prim2SF_zero, (Prim2SF_add_zero x Hx).
  destruct Hx as [[s Hx] | (m & e & Hx)]; now rewrite Hx.
Qed.

Lemma compound_idle trips : forall x,
  plain x -> compound (S trips) 0 0 x = x + 0.
Proof.
  induction trips as [| trips IH]; intros x Hx.
  - cbn [compound]. now apply idle_month.
  - change (compound (S (S trips)) 0 0 x)
      with (compound (S trips) 0 0 (x + 0 + (x + 0) * 0)).
    rewrite (idle_month x Hx), IH by now apply plain_add_zero.
    now apply add_zero_twice.
Qed.

Lemma toFixed2_add_zero x : plain x -> toFixed2 (x + 0) = toFixed2 x.
Proof.
  intros Hx. destruct Hx as [[s Hx] | (m & e & Hx)].
  - unfold toFixed2. rewrite (Prim2SF_add_zero x) by (left; eauto).
    now rewrite Hx.
  - f_equal. apply Prim2SF_inj.
    rewrite (Prim2SF_add_zero x) by (right; eauto). now rewrite Hx.
Qed.

Lemma nothing_earned x total :
  plain x -> total = x \/ total = x + 0 ->
  toFixed2 (total - (x + 0)) = Fx false 0.
Proof.
  intros Hx Htotal. unfold toFixed2.
  assert (Hzero : exists s, Prim2SF (total - (x + 0)) = S754_zero s).
  { rewrite sub_spec, (Prim2SF_add_zero x Hx).
    assert (Hsame : Prim2SF total = Prim2SF x
                    \/ Prim2SF total = Prim2SF (x + 0))
      by (destruct Htotal as [-> | ->]; auto).
    rewrite (Prim2SF_add_zero x Hx) in Hsame.
    destruct Hx as [[s Hx] | (m & e & Hx)]; rewrite Hx in *.
    - destruct Hsame as [-> | ->]; [destruct s |]; cbn; eauto.
    - assert (Htot : Prim2SF total = S754_finite false m e)
        by (destruct Hsame; assumption).
      rewrite Htot. unfold SF64sub, SFsub. cbv zeta.
      rewrite Z.sub_diag. cbn. eauto. }
  destruct Hzero as [s ->]. reflexivity.
Qed.

(** X15.  Money that is left alone earns nothing: at 0 percent and with
    no monthly deposit, a request within the ranges whose initial amount
    is finite is answered with the initial amount as final balance and
    0.00 as interest, whatever the duration. *)
Theorem idle_money_earns_nothing ston body :
  withinRanges ston body = true ->
  Number ston (annualRate body) = 0 ->
  Number ston (nullish (monthlyDeposit body) (JNum 0)) = 0 ->
  isFinite (Number ston (initialAmount body)) = true ->
  calculateInvestment ston body
  = Some (Ok200 (toFixed2 (Number ston (initialAmount body))) (Fx false 0)).
Proof.
  intros Hwithin Hrate Hmonthly Hfinite.
  destruct (calculate_within ston body Hwithin)
    as (Hcalc & Hinitial & _ & Hnan & Hpos & Hmax). cbv zeta in Hcalc.
  rewrite Hcalc, Hrate, Hmonthly. clear Hcalc.
  change (0 / 100 / 12) with 0.
  set (initial := Number ston (initialAmount body)) in *.
  set (totalMonths := Number ston (years body) * 12) in *.
  pose proof (plain_of_checks initial Hinitial Hfinite) as Hplain.
  destruct (accepted_years_end _ Hnan Hpos Hmax)
    as [(trips & Htrips & _) Hmonths].
  fold totalMonths in Htrips, Hmonths. rewrite Htrips. cbv zeta.
  assert (Hnone : 0 * totalMonths = 0).
  { apply Prim2SF_inj. rewrite mul_spec, Prim2SF_zero.
    destruct Hmonths as [-> | (m & e & ->)]; reflexivity. }
  rewrite Hnone.
  destruct trips as [| trips].
  - cbn [compound]. rewrite (nothing_earned initial initial Hplain); auto.
  - rewrite (compound_idle trips initial Hplain).
    rewrite (toFixed2_add_zero initial Hplain).
    rewrite (nothing_earned initial (initial + 0) Hplain); auto.
Qed.

Lemma idle_money_earns_nothing_witness :
  calculateInvestment GoalController.noStr
    (mkBody (JNum 1000) JUndefined (JNum 0) (JNum 0.5))
  = Some (Ok200 (Fx false 100000) (Fx false 0)).
Proof.
  exact (idle_money_earns_nothing GoalController.noStr
           (mkBody (JNum 1000) JUndefined (JNum 0) (JNum 0.5))
           eq_refl eq_refl eq_refl eq_refl).
Defined.

(** *** An infinite amount *)

Lemma unbounded_add x y : unbounded x -> unbounded (x + y).
Proof.
  unfold unbounded. rewrite add_spec. intros [-> | ->]; [| now right].
  destruct (Prim2SF y) as [[|] | [|] | | [|] ? ?]; cbn; auto.
Qed.

Lemma unbounded_compound trips monthly monthlyRate : forall total,
  unbounded total -> unbounded (compound trips monthly monthlyRate total).
Proof.
  induction trips as [| trips IH]; intros total Htotal; [exact Htotal |].
  cbn [compound]. apply IH. now do 2 apply unbounded_add.
Qed.

Lemma unbounded_sub x y :
  unbounded x -> unbounded y -> Prim2SF (x - y) = S754_nan.
Proof.
  unfold unbounded. rewrite sub_spec. now intros [-> | ->] [-> | ->].
Qed.

(** X16.  The checks let an infinite amount through (the JSON number
    1e999, say): a request within the ranges whose initial amount is
    [Infinity] is answered 200, with NaN as interest and Infinity or NaN
    as final balance. *)
Theorem infinite_amount_is_answered_NaN ston body :
  withinRanges ston body = true ->
  Number ston (initialAmount body) = infinity ->
  exists finalBalance,
    calculateInvestment ston body = Some (Ok200 finalBalance FxNaN)
    /\ (finalBalance = FxInf false \/ finalBalance = FxNaN).
Proof.
  intros Hwithin Hinitial.
  destruct (calculate_within ston body Hwithin)
    as (Hcalc & _ & _ & Hnan & Hpos & Hmax). cbv zeta in Hcalc.
  rewrite Hcalc, Hinitial. clear Hcalc.
  destruct (accepted_years_end _ Hnan Hpos Hmax) as [(trips & -> & _) _].
  cbv zeta.
  assert (Hinf : unbounded infinity) by (left; reflexivity).
  set (monthly := Number ston (nullish (monthlyDeposit body) (JNum 0))).
  set (monthlyRate := Number ston (annualRate body) / 100 / 12).
  pose proof (unbounded_compound trips monthly monthlyRate infinity Hinf)
    as Htotal.
  pose proof (unbounded_add infinity
                (monthly * (Number ston (years body) * 12)) Hinf) as Hpaid.
  pose proof (unbounded_sub _ _ Htotal Hpaid) as Hinterest.
  exists (toFixed2 (compound trips monthly monthlyRate infinity)). split.
  - do 2 f_equal. unfold toFixed2. now rewrite Hinterest.
  - unfold toFixed2. destruct Htotal as [-> | ->]; auto.
Qed.

Lemma infinite_amount_is_answered_NaN_witness :
  exists finalBalance,
    calculateInvestment GoalController.noStr
      (mkBody (JNum infinity) (JNum 100) (JNum 5) (JNum 10))
    = Some (Ok200 finalBalance FxNaN)
    /\ (finalBalance = FxInf false \/ finalBalance = FxNaN).
Proof.
  exact (infinite_amount_is_answered_NaN GoalController.noStr
           (mkBody (JNum infinity) (JNum 100) (JNum 5) (JNum 10))
           eq_refl eq_refl).
Defined.

End InvestmentFacts.

(* ===================================================================== *)
(** ** The investment form and the handler *)
(* ===================================================================== *)

Module FormFacts.
Import JSNumber InvestmentController InvestmentComponent NumberFacts InvestmentFacts.
Local Open Scope float_scope.

Lemma within_is_answered ston body :
  withinRanges ston body = true ->
  exists finalBalance totalInterest,
    calculateInvestment ston body = Some (Ok200 finalBalance totalInterest).
Proof.
  intros Hwithin.
  destruct (calculate_within ston body Hwithin)
    as (Hcalc & _ & _ & Hnan & Hpos & Hmax). cbv zeta in Hcalc.
  destruct (accepted_years_end _ Hnan Hpos Hmax) as [(trips & Htrips & _) _].
  rewrite Htrips in Hcalc. eauto.
Qed.

Lemma jsonNumber_defined x : isUndefined (jsonNumber (JNum x)) = false.
Proof. cbn. now destruct (Prim2SF x). Qed.

Lemma jsonNumber_nullish ston x :
  Number ston (nullish (jsonNumber (JNum x)) (JNum 0))
  = Number ston (jsonNumber (JNum x)).
Proof. cbn. now destruct (Prim2SF x). Qed.

(** What [JSON] makes of a number that is at least zero is at least zero;
    of one that is at most 100, at most 100; and a number above zero and
    at most 100 is left above zero. *)
Lemma jsonNumber_keeps ston x :
  let y := Number ston (jsonNumber (JNum x)) in
  (geb x 0 = true -> geb y 0 = true)
  /\ (geb 100 x = true -> geb 100 y = true)
  /\ (gtb x 0 = true -> geb 100 x = true -> gtb y 0 = true).
Proof.
  cbn [jsonNumber]. unfold geb, gtb.
  rewrite !leb_spec, !ltb_spec, Prim2SF_zero, Prim2SF_hundred.
  destruct (Prim2SF x) as [[|] | [|] | | [|] m e] eqn:Hx; cbn [Number];
    rewrite ?leb_spec, ?ltb_spec, ?Hx, ?Prim2SF_zero, ?Prim2SF_hundred;
    repeat split; intros; try assumption; try reflexivity;
    try discriminate.
Qed.

Lemma accepted_form_within ston backend fields :
  validateInputs ston fields = None ->
  withinRanges backend (viaJson (payload ston fields)) = true.
Proof.
  unfold validateInputs. intros Hform.
  destruct (_ || _ || _ || _ || _ || _ || _ || _) in Hform;
    [discriminate |].
  destruct (_ || _ || _ || _) eqn:Hnan in Hform; [discriminate |].
  destruct (_ || _ || _ || _) eqn:Hsign in Hform; [discriminate |].
  destruct (gtb (Number ston (annualRate fields)) 100) eqn:Hrate;
    [discriminate |].
  destruct (gtb (Number ston (years fields)) 100) eqn:Hyears;
    [discriminate |].
  clear Hform.
  apply orb_false_elim in Hnan as [Hnan Hn4].
  apply orb_false_elim in Hnan as [Hnan Hn3].
  apply orb_false_elim in Hnan as [Hn1 Hn2].
  apply orb_false_elim in Hsign as [Hsign Hs4].
  apply orb_false_elim in Hsign as [Hsign Hs3].
  apply orb_false_elim in Hsign as [Hs1 Hs2].
  unfold withinRanges, viaJson, payload.
  cbn [initialAmount monthlyDeposit annualRate years].
  rewrite !jsonNumber_defined, jsonNumber_nullish. cbn [negb andb].
  destruct (jsonNumber_keeps backend (Number ston (initialAmount fields)))
    as (Hinitial & _ & _).
  destruct (jsonNumber_keeps backend (Number ston (monthlyDeposit fields)))
    as (Hmonthly & _ & _).
  destruct (jsonNumber_keeps backend (Number ston (annualRate fields)))
    as (Hlow & Hhigh & _).
  destruct (jsonNumber_keeps backend (Number ston (years fields)))
    as (_ & Hmost & Hleast).
  rewrite Hinitial by (rewrite geb_zero, Hn1, Hs1; reflexivity).
  rewrite Hmonthly by (rewrite geb_zero, Hn2, Hs2; reflexivity).
  rewrite Hlow by (rewrite geb_zero, Hn3, Hs3; reflexivity).
  rewrite Hhigh by (rewrite geb_hundred, Hn3, Hrate; reflexivity).
  rewrite Hmost by (rewrite geb_hundred, Hn4, Hyears; reflexivity).
  rewrite Hleast; [reflexivity | |].
  - rewrite gtb_zero, Hn4, Hs4; reflexivity.
  - rewrite geb_hundred, Hn4, Hyears; reflexivity.
Qed.

(** X17.  What the form lets through, the handler answers: when
    [validateInputs] finds no error, the payload of [onCalculate], as it
    arrives through JSON, is within the ranges of [calculateInvestment],
    which answers it 200. *)
Theorem accepted_form_is_answered ston backend fields :
  validateInputs ston fields = None ->
  withinRanges backend (viaJson (payload ston fields)) = true
  /\ exists finalBalance totalInterest,
       calculateInvestment backend (viaJson (payload ston fields))
       = Some (Ok200 finalBalance totalInterest).
Proof.
  intros Hform. pose proof (accepted_form_within ston backend fields Hform).
  split; [assumption |]. now apply within_is_answered.
Qed.

Lemma accepted_form_is_answered_witness :
  withinRanges GoalController.noStr
    (viaJson (payload GoalController.noStr
                (mkBody (JNum 1000) (JNum 100) (JNum 5) (JNum 10)))) = true
  /\ exists finalBalance totalInterest,
       calculateInvestment GoalController.noStr
         (viaJson (payload GoalController.noStr
                     (mkBody (JNum 1000) (JNum 100) (JNum 5) (JNum 10))))
       = Some (Ok200 finalBalance totalInterest).
Proof.
  exact (accepted_form_is_answered GoalController.noStr GoalController.noStr
           (mkBody (JNum 1000) (JNum 100) (JNum 5) (JNum 10)) eq_refl).
Defined.

End FormFacts.
